(** * The embedding index engine of [embedding_server.py]

    The server keeps four pieces of global state in step: the FAISS flat
    index, and the [state] dictionary with its three entries
    ["documents"], ["id_list"] and ["embeddings"].  This development
    embeds the request handlers as functions on that state and studies the
    consistency of the four structures across add, batch add, search,
    delete, clear and persistence.

    Python dictionaries are finite maps ([gmap]); Python lists are lists.
    A handler body runs in a state-and-exception monad in which a raised
    exception keeps every mutation made so far, as Python does. *)

From stdpp Require Import gmap strings list fin_maps.
From Stdlib Require Import ZArith.

Set Warnings "-register-all".
Local Open Scope string_scope.
Local Open Scope list_scope.
Local Open Scope nat_scope.

(** ** JSON values carried in request bodies *)

(** A number is kept as the literal the client wrote: the handlers never
    compute with metadata. *)
Inductive json : Type :=
| JNull
| JBool (b : bool)
| JNum (literal : string)
| JStr (s : string)
| JArr (items : list json)
| JObj (fields : list (string * json)).

(** [meta.get(key, dflt)] on a parsed JSON object. *)
Fixpoint obj_get (key : string) (fields : list (string * json)) (dflt : json) : json :=
  match fields with
  | [] => dflt
  | (k, v) :: rest => if bool_decide (k = key) then v else obj_get key rest dflt
  end.

(** The value stored under [state["documents"][doc_id]]. *)
Record document : Type := Document {
  doc_text : string;
  doc_metadata : json
}.

(** One JSON document of a request body: any of the three fields may be
    absent. *)
Record doc_request : Type := DocRequest {
  req_id : option string;
  req_text : option string;
  req_metadata : option json
}.

Record search_request : Type := SearchRequest {
  req_query : option string;
  req_top_k : option Z
}.

(** Python truthiness of [data.get(field)] for a string field: [None] and
    the empty string are falsy. *)
Definition falsy (field : option string) : bool :=
  match field with
  | None => true
  | Some s => bool_decide (s = "")
  end.

(** [l[i]] with Python's negative indices; [None] stands for IndexError. *)
Definition py_index {A : Type} (l : list A) (i : Z) : option A :=
  if (0 <=? i)%Z then l !! Z.to_nat i
  else if (- Z.of_nat (length l) <=? i)%Z then l !! Z.to_nat (Z.of_nat (length l) + i)
  else None.

(** [l.remove(x)]: drops the first occurrence, [None] stands for ValueError. *)
Fixpoint list_remove_first (x : string) (l : list string) : option (list string) :=
  match l with
  | [] => None
  | y :: rest =>
      if bool_decide (y = x) then Some rest
      else match list_remove_first x rest with
           | Some rest' => Some (y :: rest')
           | None => None
           end
  end.

(** ** Exceptions and replies *)

Inductive exn : Type :=
| EncodeFailure                 (* raised inside [model.encode] *)
| MissingField (field : string) (* [d['text']] or [doc['id']] on a request document *)
| KeyError (key : string)       (* a dictionary of [state] has no such id *)
| ValueError                    (* [list.remove] of an absent element *)
| IndexError
| SearchFailure.                (* raised inside [index.search] *)

Definition EMBEDDING_DIM : nat := 384.

(** ** The external collaborators

    The sentence encoder and FAISS are libraries outside the repository.
    [vec] is one float32 row of [EMBEDDING_DIM] entries and [score] a
    float32 distance.  [model.encode] maps a list of sentences to one row
    per sentence, so it is given sentence by sentence; it may raise.
    [index_search rows q k] is [index.search]: the [k] (distance, label)
    pairs it returns, or a raised exception. *)
Class Backend : Type := {
  vec : Type;
  score : Type;
  encode : string → option vec;
  normalize_L2 : vec → vec;
  index_search : list vec → vec → Z → option (list (score * Z))
}.

Section Engine.
Context `{Backend}.

(** One element of the ["results"] array of a search reply. *)
Record hit : Type := Hit {
  hit_id : string;
  hit_score : score;
  hit_text : string;
  hit_metadata : json
}.

Inductive reply : Type :=
| AddOk (doc_id : string)                         (* {"status": "success", "id": doc_id} *)
| BatchOk (added : nat) (total : option nat)      (* {"added": n [, "total_documents": m]} *)
| SearchOk (results : list hit)                   (* {"results": [...]} *)
| Cleared                                         (* {"status": "cleared"} *)
| Deleted                                         (* {"status": "deleted"} *)
| BadRequest (msg : string)                       (* 400 *)
| NotFound (msg : string)                         (* 404 *)
| ServerError (e : exn).                          (* 500, {"error": str(e)} *)

Definition is_error (r : reply) : bool :=
  match r with
  | BadRequest _ | NotFound _ | ServerError _ => true
  | _ => false
  end.

(** The global [state] dictionary.  A cached vector is the row itself:
    [tolist()] followed by [np.array(..).astype('float32')] gives the row
    back. *)
Record state_t : Type := State {
  documents : gmap string document;
  id_list : list string;
  embeddings : gmap string vec
}.

Definition empty_state : state_t :=
  {| documents := ∅; id_list := []; embeddings := ∅ |}.

(** Serialisation of the two artifacts: [faiss.write_index] /
    [faiss.read_index] and [json.dump] / [json.load].  Reading may fail. *)
Class Codec : Type := {
  blob : Type;
  text : Type;
  write_index : list vec → blob;
  read_index : blob → option (list vec);
  json_dump : state_t → text;
  json_load : text → option state_t
}.

Context `{Codec}.

(** [INDEX_FILE] and [STATE_FILE]; [None] when the file does not exist. *)
Record disk_t : Type := Disk {
  index_file : option blob;
  state_file : option text
}.

(** The globals [index] and [state] together with the data directory.
    [index] is the list of rows of the flat index, so [index.ntotal] is
    its length.  The server runs [init_faiss] before it serves a request,
    hence a handler never sees [index is None]. *)
Record world : Type := World {
  index : list vec;
  state : state_t;
  disk : disk_t
}.

Definition ntotal (w : world) : nat := length (index w).

(** ** The monad of handler bodies *)

Definition M (A : Type) : Type := world → world * (exn + A).

Definition ret {A : Type} (a : A) : M A := λ w, (w, inr a).
Definition raise {A : Type} (e : exn) : M A := λ w, (w, inl e).
Definition bind {A B : Type} (m : M A) (k : A → M B) : M B :=
  λ w, match m w with
       | (w', inl e) => (w', inl e)
       | (w', inr a) => k a w'
       end.
Definition gets {A : Type} (f : world → A) : M A := λ w, (w, inr (f w)).
Definition modify (f : world → world) : M unit := λ w, (f w, inr tt).
Definition or_raise {A : Type} (e : exn) (o : option A) : M A :=
  match o with
  | Some a => ret a
  | None => raise e
  end.

Notation "'let!' x ':=' c 'in' k" := (bind c (λ x, k))
  (at level 10, x name, c at level 100, k at level 200, only parsing).
Notation "'do!' c 'in' k" := (bind c (λ _, k))
  (at level 10, c at level 100, k at level 200, only parsing).

(** [try: body except Exception as e: return 500]. *)
Definition try_except (body : M reply) : world → world * reply :=
  λ w, match body w with
       | (w', inl e) => (w', ServerError e)
       | (w', inr r) => (w', r)
       end.

(** ** Mutations of the globals *)

Definition with_state (f : state_t → state_t) (w : world) : world :=
  {| index := index w; state := f (state w); disk := disk w |}.

(** [index.add(rows)] *)
Definition index_add (rows : list vec) : M unit :=
  modify (λ w, {| index := index w ++ rows; state := state w; disk := disk w |}).

(** [index = faiss.IndexFlatL2(EMBEDDING_DIM)] *)
Definition index_reset : M unit :=
  modify (λ w, {| index := []; state := state w; disk := disk w |}).

(** [state["documents"][doc_id] = d] *)
Definition set_document (doc_id : string) (d : document) : M unit :=
  modify (with_state (λ s,
    {| documents := <[doc_id := d]> (documents s);
       id_list := id_list s; embeddings := embeddings s |})).

(** [state["id_list"].append(doc_id)] *)
Definition id_list_append (doc_id : string) : M unit :=
  modify (with_state (λ s,
    {| documents := documents s;
       id_list := id_list s ++ [doc_id]; embeddings := embeddings s |})).

(** [state["embeddings"][doc_id] = row] *)
Definition cache_vector (doc_id : string) (row : vec) : M unit :=
  modify (with_state (λ s,
    {| documents := documents s;
       id_list := id_list s; embeddings := <[doc_id := row]> (embeddings s) |})).

(** [del state["documents"][doc_id]] *)
Definition del_document (doc_id : string) : M unit :=
  let! d := gets (λ w, documents (state w) !! doc_id) in
  do! or_raise (KeyError doc_id) d in
  modify (with_state (λ s,
    {| documents := delete doc_id (documents s);
       id_list := id_list s; embeddings := embeddings s |})).

(** [state["id_list"].remove(doc_id)] *)
Definition id_list_remove (doc_id : string) : M unit :=
  let! l := gets (λ w, list_remove_first doc_id (id_list (state w))) in
  let! l' := or_raise ValueError l in
  modify (with_state (λ s,
    {| documents := documents s; id_list := l'; embeddings := embeddings s |})).

(** [del state["embeddings"][doc_id]] *)
Definition del_embedding (doc_id : string) : M unit :=
  let! e := gets (λ w, embeddings (state w) !! doc_id) in
  do! or_raise (KeyError doc_id) e in
  modify (with_state (λ s,
    {| documents := documents s;
       id_list := id_list s; embeddings := delete doc_id (embeddings s) |})).

(** [model.encode(texts).astype('float32')] *)
Definition model_encode (texts : list string) : M (list vec) :=
  or_raise EncodeFailure (mapM encode texts).

(** [save_state()]: both artifacts are written, the index first.  The
    two writes are taken to succeed; a disk that refuses them is outside
    this model.  In the source such a failure would surface as one more
    500 after the globals were written, so the statements about error
    replies below name the exceptions they cover, all of them raised
    before [save_state] is reached. *)
Definition save_state : M unit :=
  modify (λ w,
    {| index := index w; state := state w;
       disk := {| index_file := Some (write_index (index w));
                  state_file := Some (json_dump (state w)) |} |}).

(** ** Start-up *)

Definition init_faiss (d : disk_t) : world :=
  match index_file d, state_file d with
  | Some b, Some t =>
      match read_index b with
      | Some rows =>
          match json_load t with
          | Some s => {| index := rows; state := s; disk := d |}
          | None => {| index := []; state := empty_state; disk := d |}
          end
      | None => {| index := []; state := empty_state; disk := d |}
      end
  | _, _ => {| index := []; state := empty_state; disk := d |}
  end.

(** The data directory before anything was saved, and the engine the
    server starts with then. *)
Definition empty_disk : disk_t := {| index_file := None; state_file := None |}.

Definition fresh_world : world := init_faiss empty_disk.

(** ** The handlers *)

Definition add_document (data : doc_request) : world → world * reply :=
  let doc_id := req_id data in
  let txt := req_text data in
  let metadata := default (JObj []) (req_metadata data) in
  if falsy doc_id || falsy txt then
    λ w, (w, BadRequest "Missing id or text")
  else
    let doc_id := default "" doc_id in
    let txt := default "" txt in
    try_except (
      let! rows := model_encode ["passage: " +:+ txt] in
      let embedding := map normalize_L2 rows in
      do! index_add embedding in
      do! set_document doc_id {| doc_text := txt; doc_metadata := metadata |} in
      do! id_list_append doc_id in
      let! row := or_raise IndexError (embedding !! 0%nat) in
      do! cache_vector doc_id row in
      do! save_state in
      ret (AddOk doc_id)).

(** [texts = ["passage: " + d['text'] for d in docs]] *)
Fixpoint batch_texts (docs : list doc_request) : M (list string) :=
  match docs with
  | [] => ret []
  | d :: rest =>
      let! txt := or_raise (MissingField "text") (req_text d) in
      let! texts := batch_texts rest in
      ret (("passage: " +:+ txt) :: texts)
  end.

(** [for i, doc in enumerate(docs): ...] *)
Fixpoint batch_loop (i : nat) (docs : list doc_request) (rows : list vec) : M unit :=
  match docs with
  | [] => ret tt
  | doc :: rest =>
      let! doc_id := or_raise (MissingField "id") (req_id doc) in
      let! txt := or_raise (MissingField "text") (req_text doc) in
      do! set_document doc_id
            {| doc_text := txt; doc_metadata := default (JObj []) (req_metadata doc) |} in
      do! id_list_append doc_id in
      let! row := or_raise IndexError (rows !! i) in
      do! cache_vector doc_id row in
      batch_loop (S i) rest rows
  end.

Definition add_documents_batch (docs : list doc_request) : world → world * reply :=
  match docs with
  | [] => λ w, (w, BatchOk 0 None)
  | _ :: _ =>
      try_except (
        let! texts := batch_texts docs in
        let! rows := model_encode texts in
        let embeddings := map normalize_L2 rows in
        do! index_add embeddings in
        do! batch_loop 0 docs embeddings in
        do! save_state in
        let! total := gets (λ w, length (id_list (state w))) in
        ret (BatchOk (length docs) (Some total)))
  end.

(** The loop over [indices[0]] of [search]. *)
Fixpoint search_loop (pairs : list (score * Z)) : M (list hit) :=
  match pairs with
  | [] => ret []
  | (dist, idx) :: rest =>
      let! ids := gets (λ w, id_list (state w)) in
      if bool_decide (idx = (-1)%Z) || bool_decide (Z.of_nat (length ids) ≤ idx)%Z then
        search_loop rest
      else
        let! doc_id := or_raise IndexError (py_index ids idx) in
        let! docs := gets (λ w, documents (state w)) in
        let! doc := or_raise (KeyError doc_id) (docs !! doc_id) in
        let! results := search_loop rest in
        ret ({| hit_id := doc_id; hit_score := dist;
                hit_text := doc_text doc; hit_metadata := doc_metadata doc |} :: results)
  end.

(** [query_embedding] is a matrix with the single row of the query; the
    search collaborator takes that row. *)
Definition search (data : search_request) : world → world * reply :=
  let query := req_query data in
  let top_k := default 5%Z (req_top_k data) in
  if falsy query then
    λ w, (w, BadRequest "Missing query")
  else
    let query := default "" query in
    try_except (
      let! rows := model_encode ["query: " +:+ query] in
      let query_embedding := map normalize_L2 rows in
      let! n := gets ntotal in
      if bool_decide (n = 0%nat) then ret (SearchOk [])
      else
        let! q := or_raise IndexError (query_embedding !! 0%nat) in
        let! ix := gets index in
        let! pairs := or_raise SearchFailure (index_search ix q top_k) in
        let! results := search_loop pairs in
        ret (SearchOk results)).

Definition clear_index : world → world * reply :=
  λ w,
    let body :=
      do! modify (λ w, {| index := []; state := empty_state; disk := disk w |}) in
      save_state in
    ((body w).1, Cleared).

(** [vectors = [state["embeddings"][i] for i in state["id_list"]]] *)
Fixpoint gather_vectors (ids : list string) : M (list vec) :=
  match ids with
  | [] => ret []
  | i :: rest =>
      let! cache := gets (λ w, embeddings (state w)) in
      let! row := or_raise (KeyError i) (cache !! i) in
      let! rows := gather_vectors rest in
      ret (row :: rows)
  end.

Definition delete_document (doc_id : string) : world → world * reply :=
  λ w,
    if bool_decide (documents (state w) !! doc_id = None) then
      (w, NotFound "Document not found")
    else
      try_except (
        do! del_document doc_id in
        do! id_list_remove doc_id in
        do! del_embedding doc_id in
        do! index_reset in
        let! ids := gets (λ w, id_list (state w)) in
        do! match ids with
            | [] => ret tt
            | _ :: _ => let! vectors := gather_vectors ids in index_add vectors
            end in
        do! save_state in
        ret Deleted) w.

(** One row of the projected view returned by [get_documents]. *)
Record view : Type := View {
  view_id : string;
  view_title : json;
  view_content : json;
  view_category : json;
  view_createdBy : json
}.

(** [meta.get(..)] needs [meta] to be an object; anything else has no
    [get] ([None] stands for the AttributeError). *)
Definition project (doc_id : string) (d : document) : option view :=
  match doc_metadata d with
  | JObj meta =>
      Some {| view_id := doc_id;
              view_title := obj_get "title" meta (JStr "Untitled");
              view_content := obj_get "content" meta (JStr (doc_text d));
              view_category := obj_get "category" meta (JStr "General");
              view_createdBy := obj_get "createdBy" meta (JStr "System") |}
  | _ => None
  end.

(** [get_documents]: the order in which a Python dictionary is traversed
    is not kept by [gmap]; only the rows of the reply are. *)
Definition get_documents (w : world) : option (list view) :=
  mapM (λ kv, project kv.1 kv.2) (map_to_list (documents (state w))).

Definition stats (w : world) : nat * nat := (ntotal w, EMBEDDING_DIM).

(** ** Requests and runs *)

Inductive request : Type :=
| Add (data : doc_request)
| AddBatch (docs : list doc_request)
| Search (data : search_request)
| Delete (doc_id : string)
| Clear.

Definition handle (r : request) : world → world * reply :=
  match r with
  | Add data => add_document data
  | AddBatch docs => add_documents_batch docs
  | Search data => search data
  | Delete doc_id => delete_document doc_id
  | Clear => clear_index
  end.

(** The world after serving the requests in turn. *)
Fixpoint run (rs : list request) (w : world) : world :=
  match rs with
  | [] => w
  | r :: rest => run rest (handle r w).1
  end.

End Engine.

(** ** A small concrete backend

    Rows are integer lists and distances integers.  The encoder rejects
    one sentence so that encoder failures can be exercised; the search
    returns the first [k] rows, padded with the label [-1] as FAISS does
    when the index holds fewer than [k] rows. *)
Module Toy.

Definition toy_encode (sentence : string) : option (list Z) :=
  if bool_decide (sentence = "passage: unencodable") then None
  else Some [Z.of_nat (String.length sentence)].

Definition toy_search (rows : list (list Z)) (q : list Z) (k : Z) : option (list (Z * Z)) :=
  if bool_decide (k ≤ 0)%Z then None
  else
    let labels := imap (λ i _, (0%Z, Z.of_nat i)) rows in
    Some (take (Z.to_nat k) (labels ++ replicate (Z.to_nat k) (0%Z, (-1)%Z))).

#[export] Instance backend : Backend :=
  {| vec := list Z; score := Z; encode := toy_encode;
     normalize_L2 := λ v, v; index_search := toy_search |}.

#[export] Instance codec : Codec :=
  {| blob := list (list Z); text := state_t;
     write_index := λ rows, rows; read_index := Some;
     json_dump := λ s, s; json_load := Some |}.

Definition fresh : world := fresh_world.

Definition doc (i t : string) : doc_request :=
  {| req_id := Some i; req_text := Some t; req_metadata := None |}.

Definition three_docs : list request :=
  [Add (doc "a" "cats are mammals");
   Add (doc "b" "dogs are mammals");
   Add (doc "c" "stock markets fell today")].

Definition readd : list request :=
  [Add (doc "a" "first text"); Add (doc "a" "second text")].

Definition feline : search_request :=
  {| req_query := Some "feline pets"; req_top_k := Some 2%Z |}.

End Toy.

(** * Notions used to describe whole runs *)

Section Notions.
Context `{!Backend} `{!Codec}.

(** The two files [save_state] would write for the globals as they are. *)
Definition snapshot (w : world) : disk_t :=
  {| index_file := Some (write_index (index w));
     state_file := Some (json_dump (state w)) |}.

(** The replies of a mutating request that went through to [save_state]. *)
Definition committed (r : reply) : bool :=
  match r with
  | AddOk _ | BatchOk _ (Some _) | Deleted | Cleared => true
  | _ => false
  end.

(** Documents and cache hold the same ids, and each of them has an entry
    in the row order. *)
Definition linked (s : state_t) : Prop :=
  dom (embeddings s) = dom (documents s)
  ∧ ∀ i, i ∈ dom (documents s) → i ∈ id_list s.

(** A label that names a row of the row order. *)
Definition in_range (n : nat) (p : score * Z) : Prop :=
  (0 ≤ p.2 < Z.of_nat n)%Z.

#[global] Instance in_range_dec (n : nat) (p : score * Z) : Decision (in_range n p).
Proof. unfold in_range. apply _. Defined.

(** A document the single add accepts and the encoder can encode. *)
Definition addable (d : doc_request) : Prop :=
  ∃ i t v, req_id d = Some i ∧ i ≠ "" ∧ req_text d = Some t ∧ t ≠ ""
           ∧ encode ("passage: " +:+ t) = Some v.

(** The metadata is a JSON object, so that [meta.get] exists. *)
Definition is_object (m : json) : bool :=
  match m with
  | JObj _ => true
  | _ => false
  end.

End Notions.

(** * Properties of the engine *)

Section Properties.
Context `{!Backend} `{!Codec}.

(** ** Consistency of the four structures

    Every row-order entry is distinct, the documents and the cache hold
    exactly the ids of the row order, and row [i] of the index is the
    cached vector of [id_list[i]]. *)
Definition consistent (w : world) : Prop :=
  NoDup (id_list (state w))
  ∧ dom (documents (state w)) = list_to_set (id_list (state w))
  ∧ dom (embeddings (state w)) = dom (documents (state w))
  ∧ Forall2 (λ i row, embeddings (state w) !! i = Some row) (id_list (state w)) (index w).

(** The ids a request stores are new: not stored yet, present in every
    batch document, and not repeated inside a batch. *)
Definition unused (w : world) (i : string) : bool :=
  bool_decide (documents (state w) !! i = None).

Definition admissible (w : world) (r : request) : bool :=
  match r with
  | Add data =>
      match req_id data with
      | Some i => unused w i
      | None => true
      end
  | AddBatch docs =>
      match mapM req_id docs with
      | Some ids => bool_decide (NoDup ids) && forallb (unused w) ids
      | None => false
      end
  | Search _ | Delete _ | Clear => true
  end.

Fixpoint admissible_run (rs : list request) (w : world) : bool :=
  match rs with
  | [] => true
  | r :: rest => admissible w r && admissible_run rest (handle r w).1
  end.

(** The effect of storing documents with their rows, in order. *)
Definition store_one (entry : string * document * vec) (s : state_t) : state_t :=
  {| documents := <[entry.1.1 := entry.1.2]> (documents s);
     id_list := id_list s ++ [entry.1.1];
     embeddings := <[entry.1.1 := entry.2]> (embeddings s) |}.

Definition store_all (entries : list (string * document * vec)) (s : state_t) : state_t :=
  foldl (λ s e, store_one e s) s entries.

(** The world once [save_state] has run. *)
Definition saved (w : world) : world := (save_state w).1.

(** The entry a batch document contributes, when it carries id and text. *)
Definition batch_entry (d : doc_request) (row : vec) : option (string * document * vec) :=
  match req_id d, req_text d with
  | Some i, Some t =>
      Some (i, {| doc_text := t; doc_metadata := default (JObj []) (req_metadata d) |}, row)
  | _, _ => None
  end.

Ltac unfold_monad :=
  unfold model_encode, index_add, index_reset, set_document, id_list_append,
    cache_vector, del_document, id_list_remove, del_embedding, save_state,
    or_raise, try_except, bind, ret, raise, gets, modify in *.

(** *** Lists *)

Lemma filter_other_id (x : string) (l : list string) :
  filter (λ y, y = x) l = [] → filter (λ y, y ≠ x) l = l.
Proof.
  induction l as [|y l IH]; [done|].
  rewrite !filter_cons. destruct (decide (y = x)) as [->|Hne].
  - discriminate.
  - rewrite decide_True by done. intros Hnil. by rewrite IH.
Qed.

Lemma list_remove_first_once (x : string) (l : list string) :
  length (filter (λ y, y = x) l) = 1%nat →
  list_remove_first x l = Some (filter (λ y, y ≠ x) l).
Proof.
  induction l as [|y l IH]; simpl; [discriminate|].
  rewrite !filter_cons. case_bool_decide as Hy.
  - subst y. rewrite decide_True by done.
    rewrite decide_False by (intros Hn; by apply Hn).
    simpl. intros Hlen. f_equal. symmetry. apply filter_other_id.
    apply nil_length_inv. lia.
  - rewrite decide_False by done. rewrite decide_True by done.
    intros Hlen. by rewrite IH.
Qed.

Lemma list_remove_first_elem (x : string) (l : list string) :
  x ∈ l → ∃ l1 l2, l = l1 ++ (x :: l2) ∧ (x ∉ l1) ∧ list_remove_first x l = Some (l1 ++ l2).
Proof.
  induction l as [|y l IH]; [by intros ?%elem_of_nil|].
  intros Hin. simpl. case_bool_decide as Hy.
  - subst y. exists [], l. split_and!; [done|apply not_elem_of_nil|done].
  - apply elem_of_cons in Hin as [->|Hin]; [done|].
    destruct (IH Hin) as (l1 & l2 & -> & Hl1 & ->).
    exists (y :: l1), l2. split_and!; [done| |done].
    rewrite not_elem_of_cons. split; [congruence|done].
Qed.

Lemma py_index_elem {A : Type} (l : list A) (i : Z) (x : A) :
  py_index l i = Some x → x ∈ l.
Proof.
  unfold py_index. repeat case_match; try discriminate;
    intros Hl; apply list_elem_of_lookup; eauto.
Qed.

(** *** The loops *)

Lemma batch_texts_spec (docs : list doc_request) (w : world) :
  batch_texts docs w =
    (w, match mapM req_text docs with
        | Some ts => inr (map (λ t, "passage: " +:+ t) ts)
        | None => inl (MissingField "text")
        end).
Proof.
  induction docs as [|d docs IH]; [done|].
  simpl. unfold_monad. destruct (req_text d) as [t|]; simpl; [|done].
  rewrite IH. by destruct (mapM req_text docs).
Qed.

Lemma search_loop_world (pairs : list (score * Z)) (w : world) :
  (search_loop pairs w).1 = w.
Proof.
  induction pairs as [|[dist idx] pairs IH]; [done|].
  simpl. unfold_monad. case_match; [done|].
  destruct (py_index _ idx); simpl; [|done].
  destruct (documents (state w) !! _); simpl; [|done].
  destruct (search_loop pairs w) as [w' [e|hits]] eqn:E; simpl in *; by subst.
Qed.

Lemma search_loop_ids (pairs : list (score * Z)) (w : world) (results : list hit) :
  (search_loop pairs w).2 = inr results →
  Forall (λ h, hit_id h ∈ id_list (state w)
               ∧ ∃ d, documents (state w) !! hit_id h = Some d
                      ∧ hit_text h = doc_text d ∧ hit_metadata h = doc_metadata d) results.
Proof.
  revert results. induction pairs as [|[dist idx] pairs IH]; intros results.
  - simpl. unfold_monad. simpl. intros [= <-]. constructor.
  - simpl. unfold_monad. case_match; [by apply IH|].
    destruct (py_index _ idx) as [i|] eqn:Hi; simpl; [|done].
    destruct (documents (state w) !! i) as [d|] eqn:Hd; simpl; [|done].
    pose proof (search_loop_world pairs w) as Hw.
    destruct (search_loop pairs w) as [w' [e|hits]] eqn:E; simpl in *; [done|].
    intros [= <-]. constructor; [|by apply IH].
    simpl. split; [by eapply py_index_elem|]. by exists d.
Qed.

Lemma gather_vectors_spec (ids : list string) (w : world) :
  gather_vectors ids w =
    (w, match mapM (λ i, embeddings (state w) !! i) ids with
        | Some rows => inr rows
        | None => inl (KeyError (default "" (head (filter
                         (λ i, embeddings (state w) !! i = None) ids))))
        end).
Proof.
  induction ids as [|i ids IH]; [done|].
  simpl. unfold_monad.
  destruct (embeddings (state w) !! i) as [row|] eqn:Hrow; simpl.
  - rewrite IH, filter_cons_False by (rewrite Hrow; done).
    by destruct (mapM _ ids).
  - by rewrite filter_cons_True.
Qed.

Lemma store_all_cons (e : string * document * vec) (entries : list (string * document * vec))
    (s : state_t) :
  store_all (e :: entries) s = store_all entries (store_one e s).
Proof. done. Qed.

Lemma batch_loop_ok (docs : list doc_request) :
  ∀ (i : nat) (rows : list vec) (w : world) (entries : list (string * document * vec)),
    mapM (λ p, batch_entry p.1 p.2) (zip docs (drop i rows)) = Some entries →
    length docs ≤ length (drop i rows) →
    batch_loop i docs rows w = (with_state (store_all entries) w, inr tt).
Proof.
  induction docs as [|d docs IH]; intros i rows w entries Hent Hlen.
  - simpl in Hent. injection Hent as <-. by destruct w.
  - destruct (drop i rows) as [|row rest] eqn:Hdrop; [simpl in Hlen; lia|].
    assert (rows !! i = Some row) as Hrow.
    { rewrite <-(Nat.add_0_r i), <-lookup_drop, Hdrop. done. }
    assert (drop (S i) rows = rest) as Hrest.
    { rewrite (drop_S _ _ _ Hrow) in Hdrop. congruence. }
    simpl in Hent.
    destruct (batch_entry d row) as [e|] eqn:He; simpl in Hent; [|done].
    destruct (mapM _ (zip docs rest)) as [entries'|] eqn:Hent'; simpl in Hent; [|done].
    injection Hent as <-. unfold batch_entry in He.
    simpl. unfold_monad.
    destruct (req_id d) as [doc_id|]; simpl in *; [|done].
    destruct (req_text d) as [txt|]; simpl in *; [|done].
    injection He as <-. rewrite Hrow. simpl.
    erewrite IH; [done| |].
    + by rewrite Hrest.
    + rewrite Hrest. lia.
Qed.

Lemma batch_loop_error (docs : list doc_request) :
  ∀ (i : nat) (rows : list vec) (w : world) (e : exn),
    (batch_loop i docs rows w).2 = inl e →
    Forall (λ d, is_Some (req_text d)) docs →
    e = MissingField "id" ∨ e = IndexError.
Proof.
  induction docs as [|d docs IH]; intros i rows w e; [done|].
  intros Herr [[txt Htxt] Hall]%Forall_cons.
  simpl in Herr. unfold_monad. rewrite Htxt in Herr.
  destruct (req_id d) as [doc_id|]; simpl in Herr; [|left; congruence].
  destruct (rows !! i) as [row|]; simpl in Herr; [|right; congruence].
  by eapply IH.
Qed.

Lemma batch_entries_exist (docs : list doc_request) :
  ∀ (rows : list vec) (ids ts : list string),
    mapM req_id docs = Some ids →
    mapM req_text docs = Some ts →
    length rows = length docs →
    ∃ entries,
      mapM (λ p, batch_entry p.1 p.2) (zip docs rows) = Some entries
      ∧ map (λ e, e.1.1) entries = ids ∧ map snd entries = rows.
Proof.
  induction docs as [|d docs IH]; intros rows ids ts Hids Hts Hlen.
  - destruct rows; [|done]. injection Hids as <-. by exists [].
  - destruct rows as [|row rows]; [done|].
    simpl in Hids, Hts, Hlen.
    destruct (req_id d) as [i|] eqn:Hi; simpl in *; [|done].
    destruct (req_text d) as [t|] eqn:Ht; simpl in *; [|done].
    destruct (mapM req_id docs) as [ids'|] eqn:Hids'; simpl in *; [|done].
    destruct (mapM req_text docs) as [ts'|] eqn:Hts'; simpl in *; [|done].
    injection Hids as <-.
    destruct (IH rows ids' ts' eq_refl eq_refl) as (entries & Hm & He & Hr); [lia|].
    rewrite Hm. unfold batch_entry. rewrite Hi, Ht. simpl.
    eexists. split; [done|]. simpl. by rewrite He, Hr.
Qed.

(** *** The handlers, case by case *)

Lemma add_document_invalid (data : doc_request) (w : world) :
  falsy (req_id data) || falsy (req_text data) = true →
  add_document data w = (w, BadRequest "Missing id or text").
Proof. intros Hf. unfold add_document. by rewrite Hf. Qed.

Lemma add_document_encode_failure (data : doc_request) (w : world) (t : string) :
  falsy (req_id data) = false → req_text data = Some t → t ≠ "" →
  encode ("passage: " +:+ t) = None →
  add_document data w = (w, ServerError EncodeFailure).
Proof.
  intros Hid Ht Hne Henc. unfold add_document. rewrite Hid, Ht. simpl.
  rewrite bool_decide_eq_false_2 by done. unfold_monad. simpl.
  by rewrite Henc.
Qed.

Lemma add_document_ok (data : doc_request) (w : world) (i t : string) (v : vec) :
  req_id data = Some i → i ≠ "" → req_text data = Some t → t ≠ "" →
  encode ("passage: " +:+ t) = Some v →
  add_document data w =
    (saved {| index := index w ++ [normalize_L2 v];
              state := store_one
                (i, {| doc_text := t; doc_metadata := default (JObj []) (req_metadata data) |},
                 normalize_L2 v) (state w);
              disk := disk w |},
     AddOk i).
Proof.
  intros Hid Hi Ht Hne Henc. unfold add_document. rewrite Hid, Ht. simpl.
  rewrite !bool_decide_eq_false_2 by done. unfold saved. unfold_monad. simpl.
  by rewrite Henc.
Qed.

Lemma add_documents_batch_early_failure (docs : list doc_request) (w : world) :
  docs ≠ [] →
  match mapM req_text docs with
  | Some ts => mapM encode (map (λ t, "passage: " +:+ t) ts) = None
  | None => True
  end →
  add_documents_batch docs w =
    (w, ServerError (match mapM req_text docs with
                     | Some _ => EncodeFailure
                     | None => MissingField "text"
                     end)).
Proof.
  intros Hne Hfail. destruct docs as [|d docs]; [done|].
  unfold add_documents_batch. unfold try_except, bind at 1.
  rewrite batch_texts_spec. destruct (mapM req_text (d :: docs)) as [ts|]; [|done].
  unfold_monad. by rewrite Hfail.
Qed.

Lemma add_documents_batch_ok (docs : list doc_request) (w : world)
    (ts : list string) (rows : list vec) (entries : list (string * document * vec)) :
  docs ≠ [] →
  mapM req_text docs = Some ts →
  mapM encode (map (λ t, "passage: " +:+ t) ts) = Some rows →
  mapM (λ p, batch_entry p.1 p.2) (zip docs (map normalize_L2 rows)) = Some entries →
  add_documents_batch docs w =
    (saved {| index := index w ++ map normalize_L2 rows;
              state := store_all entries (state w);
              disk := disk w |},
     BatchOk (length docs) (Some (length (id_list (store_all entries (state w)))))).
Proof.
  intros Hne Hts Henc Hent. destruct docs as [|d docs]; [done|].
  unfold add_documents_batch. unfold try_except, bind at 1.
  rewrite batch_texts_spec, Hts.
  unfold model_encode, or_raise, bind at 1. rewrite Henc.
  unfold ret at 1. unfold index_add, modify, bind at 1.
  unfold bind at 1. erewrite (batch_loop_ok _ 0); [| exact Hent |].
  - done.
  - rewrite drop_0, length_map.
    apply length_mapM in Hts, Henc. rewrite length_map in Henc. lia.
Qed.

Lemma search_loop_state (pairs : list (score * Z)) (w w' : world) :
  state w = state w' → (search_loop pairs w).2 = (search_loop pairs w').2.
Proof.
  intros Hs. induction pairs as [|[dist idx] pairs IH]; [done|].
  simpl. unfold_monad. simpl. rewrite <-Hs. case_match; [done|].
  destruct (py_index _ idx); simpl; [|done]. rewrite <-Hs.
  destruct (documents (state w) !! _); simpl; [|done].
  destruct (search_loop pairs w) as [w1 r1], (search_loop pairs w') as [w2 r2].
  simpl in IH. subst r2. by destruct r1.
Qed.

Lemma search_world (q : search_request) (w : world) : (search q w).1 = w.
Proof.
  unfold search. destruct (falsy (req_query q)); [done|].
  unfold_monad. destruct (mapM encode _); simpl; [|done].
  case_bool_decide; simpl; [done|].
  destruct (map normalize_L2 _ !! 0); simpl; [|done].
  destruct (index_search _ _ _) as [pairs|]; simpl; [|done].
  pose proof (search_loop_world pairs w).
  by destruct (search_loop pairs w) as [w' [e|r]].
Qed.

Lemma search_disk (q : search_request) (w : world) (d : disk_t) :
  (search q {| index := index w; state := state w; disk := d |}).2 = (search q w).2.
Proof.
  unfold search. destruct (falsy (req_query q)); [done|].
  unfold_monad. destruct (mapM encode _); simpl; [|done].
  unfold ntotal. simpl. case_bool_decide; simpl; [done|].
  destruct (map normalize_L2 _ !! 0); simpl; [|done].
  destruct (index_search _ _ _) as [pairs|]; simpl; [|done].
  pose proof (search_loop_state pairs
    {| index := index w; state := state w; disk := d |} w eq_refl) as Hl.
  destruct (search_loop pairs w) as [w1 r1], (search_loop pairs _) as [w2 r2].
  simpl in Hl. subst r2. by destruct r1.
Qed.

Lemma search_results_ids (q : search_request) (w : world) (results : list hit) :
  (search q w).2 = SearchOk results →
  Forall (λ h, hit_id h ∈ id_list (state w)
               ∧ ∃ d, documents (state w) !! hit_id h = Some d
                      ∧ hit_text h = doc_text d ∧ hit_metadata h = doc_metadata d) results.
Proof.
  unfold search. destruct (falsy (req_query q)); [done|].
  unfold_monad. destruct (mapM encode _); simpl; [|done].
  case_bool_decide; simpl; [intros [= <-]; constructor|].
  destruct (map normalize_L2 _ !! 0); simpl; [|done].
  destruct (index_search _ _ _) as [pairs|]; simpl; [|done].
  pose proof (search_loop_ids pairs w) as Hl.
  destruct (search_loop pairs w) as [w' [e|r]]; simpl in *; [done|].
  intros [= <-]. by apply Hl.
Qed.

Lemma clear_index_spec (w : world) :
  clear_index w =
    (saved {| index := []; state := empty_state; disk := disk w |}, Cleared).
Proof. done. Qed.

Lemma delete_document_not_found (doc_id : string) (w : world) :
  documents (state w) !! doc_id = None →
  delete_document doc_id w = (w, NotFound "Document not found").
Proof. intros Hd. unfold delete_document. by rewrite bool_decide_eq_true_2. Qed.

Lemma delete_document_ok (doc_id : string) (w : world) :
  is_Some (documents (state w) !! doc_id) →
  length (filter (λ i, i = doc_id) (id_list (state w))) = 1 →
  (∀ i, i ∈ id_list (state w) → is_Some (embeddings (state w) !! i)) →
  ∃ rows,
    mapM (λ i, delete doc_id (embeddings (state w)) !! i)
         (filter (λ i, i ≠ doc_id) (id_list (state w))) = Some rows
    ∧ delete_document doc_id w =
        (saved {| index := rows;
                  state := {| documents := delete doc_id (documents (state w));
                              id_list := filter (λ i, i ≠ doc_id) (id_list (state w));
                              embeddings := delete doc_id (embeddings (state w)) |};
                  disk := disk w |},
         Deleted).
Proof.
  intros [d Hd] Honce Hcached.
  assert (doc_id ∈ id_list (state w)) as Hin.
  { destruct (filter (λ i, i = doc_id) (id_list (state w))) as [|x l] eqn:Hf; [done|].
    assert (x ∈ filter (λ i, i = doc_id) (id_list (state w))) as Hx
      by (rewrite Hf; apply list_elem_of_here).
    apply list_elem_of_filter in Hx as [-> ?]. done. }
  destruct (Hcached _ Hin) as [v Hv].
  destruct (mapM (λ i, delete doc_id (embeddings (state w)) !! i)
              (filter (λ i, i ≠ doc_id) (id_list (state w)))) as [rows|] eqn:Hrows.
  2: { apply mapM_None_1, Exists_exists in Hrows as (i & Hi & Hnone).
       apply list_elem_of_filter in Hi as [Hne Hi].
       rewrite lookup_delete_ne in Hnone by done.
       destruct (Hcached _ Hi) as [? ?]. congruence. }
  exists rows. split; [done|].
  unfold delete_document. rewrite bool_decide_eq_false_2 by congruence.
  unfold saved. unfold_monad. simpl. rewrite Hd. simpl.
  rewrite (list_remove_first_once _ _ Honce). simpl. rewrite Hv. simpl.
  destruct (filter (λ i, i ≠ doc_id) (id_list (state w))) as [|i ids] eqn:Hf.
  - simpl in Hrows. by injection Hrows as <-.
  - rewrite gather_vectors_spec. simpl state. simpl embeddings. simpl id_list.
    by rewrite Hrows.
Qed.

(** *** Consistency is kept *)

Lemma Forall2_impl_elem {A B : Type} (P Q : A → B → Prop) (l : list A) (k : list B) :
  Forall2 P l k → (∀ x y, x ∈ l → P x y → Q x y) → Forall2 Q l k.
Proof.
  induction 1 as [|x y l k HP _ IH]; intros HPQ; constructor.
  - apply HPQ; [apply list_elem_of_here|done].
  - apply IH. intros x' y' Hx'. apply HPQ. by apply list_elem_of_further.
Qed.

Lemma consistent_counts (w : world) :
  consistent w →
  length (id_list (state w)) = ntotal w
  ∧ ntotal w = size (documents (state w))
  ∧ size (documents (state w)) = size (embeddings (state w)).
Proof.
  intros (Hnd & Hdom & Hemb & Hrows).
  assert (size (documents (state w)) = length (id_list (state w))) as Hsz.
  { rewrite <-size_dom, Hdom. by apply size_list_to_set. }
  split_and!.
  - by apply Forall2_length in Hrows.
  - apply Forall2_length in Hrows. unfold ntotal. lia.
  - by rewrite <-!(size_dom (D:=gset string)), Hemb.
Qed.

Lemma consistent_same (w w' : world) :
  index w' = index w → state w' = state w → consistent w → consistent w'.
Proof. unfold consistent. by intros -> ->. Qed.

Lemma consistent_store_one (ix : list vec) (s : state_t) (d d' : disk_t)
    (i : string) (doc : document) (row : vec) :
  consistent {| index := ix; state := s; disk := d |} →
  documents s !! i = None →
  consistent {| index := ix ++ [row]; state := store_one (i, doc, row) s; disk := d' |}.
Proof.
  unfold consistent. simpl. intros (Hnd & Hdom & Hemb & Hrows) Hfresh.
  assert (i ∉ id_list s) as Hnotin.
  { apply not_elem_of_dom_2 in Hfresh. rewrite Hdom in Hfresh.
    by rewrite elem_of_list_to_set in Hfresh. }
  split_and!.
  - apply NoDup_app. split_and!; [done| |apply NoDup_singleton].
    intros x Hx ->%list_elem_of_singleton. done.
  - by rewrite dom_insert_L, list_to_set_snoc_L, Hdom, (comm_L (∪)).
  - rewrite !dom_insert_L, Hemb. done.
  - apply Forall2_app.
    + eapply Forall2_impl_elem; [exact Hrows|].
      intros x y Hx Hxy. simpl. rewrite lookup_insert_ne; [done|]. by intros ->.
    + constructor; [|constructor]. apply lookup_insert_eq.
Qed.

Lemma consistent_store_all (entries : list (string * document * vec)) :
  ∀ (ix : list vec) (s : state_t) (d d' : disk_t),
    consistent {| index := ix; state := s; disk := d |} →
    NoDup (map (λ e, e.1.1) entries) →
    (∀ i, i ∈ map (λ e, e.1.1) entries → documents s !! i = None) →
    consistent {| index := ix ++ map snd entries; state := store_all entries s; disk := d' |}.
Proof.
  induction entries as [|[[i doc] row] entries IH]; intros ix s d d' Hc Hnd Hfresh.
  - simpl. rewrite app_nil_r. by eapply consistent_same; [..|exact Hc].
  - rewrite store_all_cons.
    change (map snd ((i, doc, row) :: entries)) with ([row] ++ map snd entries).
    rewrite (assoc_L (++)).
    simpl in Hnd. apply NoDup_cons in Hnd as [Hi Hnd].
    apply (IH _ _ d d'); [|done|].
    + apply (consistent_store_one _ _ d); [done|].
      apply Hfresh. simpl. apply list_elem_of_here.
    + intros j Hj. simpl. rewrite lookup_insert_ne by (intros ->; done).
      apply Hfresh. simpl. by apply list_elem_of_further.
Qed.

Lemma consistent_delete (doc_id : string) (w : world) (rows : list vec) (d' : disk_t) :
  consistent w →
  mapM (λ i, delete doc_id (embeddings (state w)) !! i)
       (filter (λ i, i ≠ doc_id) (id_list (state w))) = Some rows →
  consistent {| index := rows;
                state := {| documents := delete doc_id (documents (state w));
                            id_list := filter (λ i, i ≠ doc_id) (id_list (state w));
                            embeddings := delete doc_id (embeddings (state w)) |};
                disk := d' |}.
Proof.
  unfold consistent. simpl. intros (Hnd & Hdom & Hemb & Hrows) Hm. split_and!.
  - by apply NoDup_filter.
  - rewrite dom_delete_L, Hdom. apply set_eq. intros j.
    rewrite elem_of_difference, !elem_of_list_to_set, list_elem_of_filter.
    rewrite elem_of_singleton. tauto.
  - by rewrite !dom_delete_L, Hemb.
  - by apply mapM_Some_1 in Hm.
Qed.

Lemma filter_eq_once (x : string) (l : list string) :
  NoDup l → x ∈ l → length (filter (λ y, y = x) l) = 1.
Proof.
  induction 1 as [|y l Hy Hnd IH]; [by intros ?%elem_of_nil|].
  intros Hin. rewrite filter_cons. destruct (decide (y = x)) as [->|Hne].
  - simpl. f_equal. apply length_zero_iff_nil.
    destruct (filter (λ y, y = x) l) as [|z k] eqn:Hf; [done|].
    assert (z ∈ filter (λ y, y = x) l) as Hz by (rewrite Hf; apply list_elem_of_here).
    apply list_elem_of_filter in Hz as [-> ?]. done.
  - apply elem_of_cons in Hin as [->|Hin]; [done|]. by apply IH.
Qed.

Lemma consistent_fresh : consistent fresh_world.
Proof.
  unfold consistent, fresh_world, init_faiss. simpl.
  split_and!; [constructor|by rewrite dom_empty_L|by rewrite !dom_empty_L|constructor].
Qed.

Lemma falsy_false (field : option string) :
  falsy field = false → ∃ s, field = Some s ∧ s ≠ "".
Proof.
  destruct field as [s|]; simpl; [|done].
  intros Hs%bool_decide_eq_false. by exists s.
Qed.

Lemma unused_forallb (w : world) (ids : list string) :
  forallb (unused w) ids = true → ∀ i, i ∈ ids → documents (state w) !! i = None.
Proof.
  intros Hall i Hi. rewrite forallb_forall in Hall.
  apply list_elem_of_In, Hall in Hi. unfold unused in Hi.
  by apply bool_decide_eq_true in Hi.
Qed.

Lemma handle_consistent (r : request) (w : world) :
  consistent w → admissible w r = true → consistent (handle r w).1.
Proof.
  intros Hc Hadm. destruct r as [data|docs|q|doc_id|]; simpl in *.
  - destruct (falsy (req_id data) || falsy (req_text data)) eqn:Hf.
    { by rewrite add_document_invalid. }
    apply orb_false_iff in Hf as [Hfi Hft].
    destruct (falsy_false _ Hfi) as (i & Hi & Hine).
    destruct (falsy_false _ Hft) as (t & Ht & Htne).
    destruct (encode ("passage: " +:+ t)) as [v|] eqn:Henc.
    + rewrite (add_document_ok data w i t v) by done. simpl.
      destruct w as [ix s d]. apply (consistent_store_one _ _ d); [done|].
      rewrite Hi in Hadm. by apply bool_decide_eq_true in Hadm.
    + by rewrite (add_document_encode_failure data w t).
  - destruct docs as [|d0 docs]; [done|].
    destruct (mapM req_id (d0 :: docs)) as [ids|] eqn:Hids; [|done].
    apply andb_true_iff in Hadm as [Hnd%bool_decide_eq_true Hfresh].
    destruct (mapM req_text (d0 :: docs)) as [ts|] eqn:Hts.
    2: { rewrite add_documents_batch_early_failure; [done..|]. by rewrite Hts. }
    destruct (mapM encode (map (λ t, "passage: " +:+ t) ts)) as [rows|] eqn:Henc.
    2: { rewrite add_documents_batch_early_failure; [done..|]. by rewrite Hts. }
    destruct (batch_entries_exist (d0 :: docs) (map normalize_L2 rows) ids ts)
      as (entries & Hent & Hids' & Hrows); [done..| |].
    { apply length_mapM in Hts, Henc. rewrite length_map in *. lia. }
    rewrite (add_documents_batch_ok _ w ts rows entries) by done. simpl.
    rewrite <-Hrows. destruct w as [ix s d].
    apply (consistent_store_all _ _ _ d); [done|by rewrite Hids'|].
    rewrite Hids'. by apply (unused_forallb {| index := ix; state := s; disk := d |}).
  - by rewrite search_world.
  - destruct (documents (state w) !! doc_id) as [d|] eqn:Hd.
    2: { by rewrite delete_document_not_found. }
    pose proof Hc as (Hnd & Hdom & Hemb & Hrows).
    assert (doc_id ∈ id_list (state w)) as Hin.
    { apply (elem_of_list_to_set (C:=gset string)). rewrite <-Hdom.
      apply elem_of_dom. by exists d. }
    destruct (delete_document_ok doc_id w) as (rows & Hm & ->).
    + by exists d.
    + by apply filter_eq_once.
    + intros i Hi. apply elem_of_dom. rewrite Hemb, Hdom.
      by apply elem_of_list_to_set.
    + simpl. by apply consistent_delete.
  - unfold consistent. simpl.
    split_and!; [constructor|by rewrite dom_empty_L|by rewrite !dom_empty_L|constructor].
Qed.

Lemma run_consistent (rs : list request) :
  ∀ w, consistent w → admissible_run rs w = true → consistent (run rs w).
Proof.
  induction rs as [|r rs IH]; intros w Hc Hadm; [done|].
  simpl in *. apply andb_true_iff in Hadm as [Hr Hrs].
  apply IH; [|done]. by apply handle_consistent.
Qed.

Lemma try_except_not_found (body : M reply) (w : world) (msg : string) :
  (∀ w' r, body w = (w', inr r) → r = Deleted) →
  (try_except body w).2 ≠ NotFound msg.
Proof.
  intros Hr. unfold try_except.
  destruct (body w) as [w' [e|r]] eqn:Hb; simpl; [done|].
  by rewrite (Hr w' r eq_refl).
Qed.

Lemma bind_inr {A B : Type} (m : M A) (k : A → M B) (w w' : world) (b : B) :
  bind m k w = (w', inr b) → ∃ a w1, m w = (w1, inr a) ∧ k a w1 = (w', inr b).
Proof.
  unfold bind. destruct (m w) as [w1 [e|a]]; [done|]. intros Hk. by exists a, w1.
Qed.

Lemma delete_document_never_not_found (doc_id : string) (w : world) (msg : string) :
  documents (state w) !! doc_id ≠ None →
  (delete_document doc_id w).2 ≠ NotFound msg.
Proof.
  intros Hd. unfold delete_document. rewrite bool_decide_eq_false_2 by done.
  apply try_except_not_found. intros w' r Hb.
  repeat (apply bind_inr in Hb as (? & ? & _ & Hb)).
  unfold ret in Hb. congruence.
Qed.

Lemma add_documents_batch_late_error (docs : list doc_request) (w : world)
    (ts : list string) (rows : list vec) (e : exn) :
  mapM req_text docs = Some ts →
  mapM encode (map (λ t, "passage: " +:+ t) ts) = Some rows →
  (add_documents_batch docs w).2 = ServerError e →
  e = MissingField "id" ∨ e = IndexError.
Proof.
  intros Hts Henc. destruct docs as [|d docs]; [done|].
  unfold add_documents_batch. unfold try_except, bind at 1.
  rewrite batch_texts_spec, Hts.
  unfold model_encode, or_raise, bind at 1. rewrite Henc.
  unfold ret at 1. unfold index_add, modify, bind at 1. unfold bind at 1.
  destruct (batch_loop 0 (d :: docs) (map normalize_L2 rows) _) as [w1 [e1|[]]] eqn:Hl.
  - simpl. intros [= <-]. eapply (batch_loop_error _ _ _ _ e1).
    + by rewrite Hl.
    + apply mapM_is_Some_1. by rewrite Hts.
  - by unfold_monad.
Qed.




Lemma project_is_Some (i : string) (d : document) :
  is_Some (project i d) ↔ is_object (doc_metadata d) = true.
Proof.
  unfold project. destruct (doc_metadata d); simpl; split; intros Hs;
    try done; try (by destruct Hs); by eexists.
Qed.

Lemma project_id (i : string) (d : document) (vw : view) :
  project i d = Some vw → view_id vw = i.
Proof. unfold project. destruct (doc_metadata d); try done. by intros [= <-]. Qed.

Lemma get_documents_is_Some (w : world) :
  is_Some (get_documents w)
  ↔ ∀ i d, documents (state w) !! i = Some d → is_object (doc_metadata d) = true.
Proof.
  unfold get_documents. rewrite mapM_is_Some, Forall_forall. split.
  - intros Hall i d Hd. apply (project_is_Some i).
    apply (Hall (i, d)). by apply elem_of_map_to_list.
  - intros Hall [i d] Hd%elem_of_map_to_list. simpl.
    apply project_is_Some. by eapply Hall.
Qed.

(** ** The claims *)

(** C1 (as amended).  Start from the empty engine and serve any sequence of
    add, add_batch, search, delete and clear requests in which no add or
    add_batch supplies an id that is already stored, repeats an id inside
    a batch, or leaves a batch document without an id.  Then the length of
    [id_list], the number of rows of the index, the number of keys of
    [documents] and the number of keys of [embeddings] are all equal. *)
Theorem counts_agree_without_readd (rs : list request) :
  admissible_run rs fresh_world = true →
  let w := run rs fresh_world in
  length (id_list (state w)) = ntotal w
  ∧ ntotal w = size (documents (state w))
  ∧ size (documents (state w)) = size (embeddings (state w)).
Proof.
  intros Hadm w. apply consistent_counts, run_consistent; [|done].
  apply consistent_fresh.
Qed.


(** C2 (as amended).  An error raised before the handler's first write
    leaves the documents, the row order, the cache, the index and the
    files on disk as they were: the 400 reply of add, an encoder failure
    in add or add_batch, a batch document without text, the not-found
    reply of delete, and every error of search. *)
Theorem errors_before_first_write_leave_state (r : request) (w : world) :
  match r with
  | Add _ =>
      (∃ msg, (handle r w).2 = BadRequest msg)
      ∨ (handle r w).2 = ServerError EncodeFailure
  | AddBatch _ =>
      (handle r w).2 = ServerError EncodeFailure
      ∨ (handle r w).2 = ServerError (MissingField "text")
  | Search _ => is_error (handle r w).2 = true
  | Delete _ => ∃ msg, (handle r w).2 = NotFound msg
  | Clear => False
  end →
  (handle r w).1 = w.
Proof.
  destruct r as [data|docs|q|doc_id|]; simpl.
  - destruct (falsy (req_id data) || falsy (req_text data)) eqn:Hf.
    { by rewrite add_document_invalid. }
    apply orb_false_iff in Hf as [Hfi Hft].
    destruct (falsy_false _ Hfi) as (i & Hi & Hine).
    destruct (falsy_false _ Hft) as (t & Ht & Htne).
    destruct (encode ("passage: " +:+ t)) as [v|] eqn:Henc.
    + rewrite (add_document_ok data w i t v) by done. simpl.
      intros [[msg Hmsg]|Herr]; done.
    + by rewrite (add_document_encode_failure data w t).
  - destruct docs as [|d0 docs]; [done|].
    destruct (mapM req_text (d0 :: docs)) as [ts|] eqn:Hts.
    2: { rewrite add_documents_batch_early_failure; [done..|]. by rewrite Hts. }
    destruct (mapM encode (map (λ t, "passage: " +:+ t) ts)) as [rows|] eqn:Henc.
    2: { rewrite add_documents_batch_early_failure; [done..|]. by rewrite Hts. }
    intros [Herr|Herr];
      destruct (add_documents_batch_late_error _ w ts rows _ Hts Henc Herr); done.
  - intros _. apply search_world.
  - intros [msg Hmsg]. destruct (documents (state w) !! doc_id) as [d|] eqn:Hd.
    + exfalso. eapply delete_document_never_not_found; [|exact Hmsg]. by rewrite Hd.
    + by rewrite delete_document_not_found.
  - done.
Qed.


(** C4.  Adding a document under an id [X] that is already stored appends
    one more row to the index and one more entry [X] to the row order,
    and overwrites the entries of [X] in the documents and in the cache:
    the number of stored documents stays the same while [X] now owns one
    more row, two or more once it had one. *)
Theorem readd_appends_second_row (data : doc_request) (w : world)
    (X t : string) (v : vec) :
  req_id data = Some X → X ≠ "" →
  req_text data = Some t → t ≠ "" →
  encode ("passage: " +:+ t) = Some v →
  is_Some (documents (state w) !! X) →
  let w' := (add_document data w).1 in
  (add_document data w).2 = AddOk X
  ∧ index w' = index w ++ [normalize_L2 v]
  ∧ id_list (state w') = id_list (state w) ++ [X]
  ∧ documents (state w') =
      <[X := {| doc_text := t; doc_metadata := default (JObj []) (req_metadata data) |}]>
        (documents (state w))
  ∧ embeddings (state w') = <[X := normalize_L2 v]> (embeddings (state w))
  ∧ size (documents (state w')) = size (documents (state w))
  ∧ ntotal w' = S (ntotal w)
  ∧ length (filter (λ i, i = X) (id_list (state w'))) =
      S (length (filter (λ i, i = X) (id_list (state w))))
  ∧ (X ∈ id_list (state w) → 2 ≤ length (filter (λ i, i = X) (id_list (state w')))).
Proof.
  intros Hid HX Ht Hne Henc [d0 Hd0] w'. subst w'.
  rewrite (add_document_ok data w X t v) by done. simpl.
  assert (length (filter (λ i, i = X) (id_list (state w) ++ [X])) =
          S (length (filter (λ i, i = X) (id_list (state w))))) as Hcount.
  { rewrite filter_app, length_app, filter_cons_True by done. simpl. lia. }
  split_and!; try done.
  - rewrite map_size_insert_Some; [done|]. by exists d0.
  - unfold ntotal. simpl. rewrite length_app. simpl. lia.
  - intros Hin. rewrite Hcount.
    destruct (filter (λ i, i = X) (id_list (state w))) as [|x l] eqn:Hf; [|simpl; lia].
    exfalso. eapply (filter_nil_not_elem_of (λ i, i = X)); [exact Hf| |exact Hin]. done.
Qed.

(** C5.  Writing the snapshot and loading it again gives back the index
    and the state, so every query is answered as before: the same ids in
    the same order with the same distances.  The two serialisers are
    taken to read back what they wrote. *)
Theorem persist_then_reload (w : world) :
  read_index (write_index (index w)) = Some (index w) →
  json_load (json_dump (state w)) = Some (state w) →
  let w' := init_faiss (disk (saved w)) in
  index w' = index w
  ∧ state w' = state w
  ∧ ∀ q, (search q w').2 = (search q w).2.
Proof.
  intros Hix Hst w'. subst w'. unfold saved, save_state, modify, init_faiss. simpl.
  rewrite Hix, Hst. split_and!; [done..|].
  intros q. apply (search_disk q w).
Qed.

(** C6.  A non-empty batch whose texts cannot all be encoded (a document
    has no text, or the encoder raises) is answered with an error and
    changes nothing: no row is appended and documents, row order, cache
    and files stay as they were. *)
Theorem batch_encoding_all_or_nothing (docs : list doc_request) (w : world) :
  docs ≠ [] →
  match mapM req_text docs with
  | Some ts => mapM encode (map (λ t, "passage: " +:+ t) ts) = None
  | None => True
  end →
  (add_documents_batch docs w).1 = w
  ∧ is_error (add_documents_batch docs w).2 = true.
Proof.
  intros Hne Hfail. by rewrite add_documents_batch_early_failure.
Qed.

(** C7.  An add request whose id or text is missing or empty is answered
    with the 400 reply and the world (index, state and files) is the one
    before the request, whatever the encoder would do. *)
Theorem add_rejects_missing_fields (data : doc_request) (w : world) :
  req_id data = None ∨ req_id data = Some ""
  ∨ req_text data = None ∨ req_text data = Some "" →
  add_document data w = (w, BadRequest "Missing id or text").
Proof.
  intros Hbad. apply add_document_invalid.
  destruct Hbad as [Hb | [Hb | [Hb | Hb]]]; rewrite Hb; simpl; try done;
    apply orb_true_r.
Qed.

(** C8.  With a non-empty query that the encoder accepts, a search on an
    index without rows succeeds with an empty list of results. *)
Theorem search_on_empty_index (q : search_request) (w : world) (query : string) :
  req_query q = Some query → query ≠ "" →
  is_Some (encode ("query: " +:+ query)) →
  ntotal w = 0 →
  search q w = (w, SearchOk []).
Proof.
  intros Hq Hne [v Hv] Hn. unfold search. rewrite Hq. simpl.
  rewrite bool_decide_eq_false_2 by done. unfold_monad. simpl.
  rewrite Hv. simpl. by rewrite bool_decide_eq_true_2.
Qed.


End Properties.

(** * The claims on concrete runs *)

Module Runs.
Import Toy.

(** C1 fails as stated: after adding the id ["a"] twice the row order and
    the index hold two entries, the documents and the cache one. *)
Lemma counts_differ_after_readd :
  let w := run readd fresh in
  ¬ (length (id_list (state w)) = ntotal w
     ∧ ntotal w = size (documents (state w))
     ∧ size (documents (state w)) = size (embeddings (state w))).
Proof. vm_compute. intros (_ & Hrows & _). discriminate. Qed.

Lemma counts_agree_witness :
  let w := run (three_docs ++ [AddBatch [doc "d" "x"; doc "e" "y"];
                               Delete "b"; Search feline; Delete "zz"]) fresh in
  length (id_list (state w)) = ntotal w
  ∧ ntotal w = size (documents (state w))
  ∧ size (documents (state w)) = size (embeddings (state w)).
Proof.
  apply (counts_agree_without_readd
           (three_docs ++ [AddBatch [doc "d" "x"; doc "e" "y"];
                           Delete "b"; Search feline; Delete "zz"])).
  vm_compute. reflexivity.
Defined.

(** C2 fails as stated: no handler rolls back.  Deleting ["a"] after it
    was added twice is answered with an error, and the state is no longer
    the one before the request. *)
Lemma failed_delete_is_not_rolled_back :
  let w := run readd fresh in
  is_error (handle (Delete "a") w).2 = true ∧ (handle (Delete "a") w).1 ≠ w.
Proof.
  split; [vm_compute; reflexivity|]. intros Heq. apply (f_equal ntotal) in Heq.
  vm_compute in Heq. discriminate.
Qed.

Lemma errors_before_first_write_witness :
  (handle (AddBatch [doc "a" "fine"; doc "b" "unencodable"]) (run three_docs fresh)).1
  = run three_docs fresh.
Proof.
  apply (errors_before_first_write_leave_state
           (AddBatch [doc "a" "fine"; doc "b" "unencodable"])).
  left. vm_compute. reflexivity.
Defined.



Lemma readd_witness :
  let w := run [Add (doc "a" "first text")] fresh in
  let w' := (add_document (doc "a" "second text") w).1 in
  id_list (state w') = ["a"; "a"]
  ∧ ntotal w' = 2
  ∧ size (documents (state w')) = 1.
Proof.
  intros w w'.
  destruct (readd_appends_second_row (doc "a" "second text") w
              "a" "second text" [20%Z])
    as (_ & _ & Hids & _ & _ & Hsize & Hrows & _);
    [reflexivity | discriminate | reflexivity | discriminate | reflexivity | |].
  - eexists. vm_compute. reflexivity.
  - split; [exact Hids|]. split; [exact Hrows|]. fold w' in Hsize. rewrite Hsize.
    vm_compute. reflexivity.
Defined.

Lemma persist_then_reload_witness :
  let w := run three_docs fresh in
  (search feline (init_faiss (disk (saved w)))).2 = (search feline w).2.
Proof.
  intros w.
  destruct (persist_then_reload w) as (_ & _ & Hsearch); [reflexivity..|].
  apply Hsearch.
Defined.

Lemma batch_encoding_witness :
  let docs := [doc "a" "fine"; doc "b" "unencodable"] in
  (add_documents_batch docs (run three_docs fresh)).1 = run three_docs fresh.
Proof.
  intros docs.
  destruct (batch_encoding_all_or_nothing docs (run three_docs fresh)) as [Hw _].
  - discriminate.
  - vm_compute. reflexivity.
  - exact Hw.
Defined.

Lemma add_rejects_witness :
  add_document {| req_id := Some ""; req_text := Some "x"; req_metadata := None |} fresh
  = (fresh, BadRequest "Missing id or text").
Proof.
  apply add_rejects_missing_fields. right. left. reflexivity.
Defined.

Lemma search_on_empty_witness :
  search feline fresh = (fresh, SearchOk []).
Proof.
  apply (search_on_empty_index feline fresh "feline pets").
  - reflexivity.
  - discriminate.
  - eexists. vm_compute. reflexivity.
  - reflexivity.
Defined.


End Runs.

(** * More about the handlers *)

Section Further.
Context `{!Backend} `{!Codec}.

Ltac run_monad :=
  unfold model_encode, index_add, index_reset, set_document, id_list_append,
    cache_vector, del_document, id_list_remove, del_embedding, save_state,
    or_raise, try_except, bind, ret, raise, gets, modify in *.

(** ** Search *)

Lemma search_loop_scores (pairs : list (score * Z)) (w : world) (results : list hit) :
  (search_loop pairs w).2 = inr results →
  sublist (map hit_score results) (map fst pairs).
Proof.
  revert results. induction pairs as [|[dist idx] pairs IH]; intros results.
  - simpl. run_monad. simpl. intros [= <-]. constructor.
  - simpl. run_monad. case_match.
    { intros Hr. apply sublist_cons. by apply IH. }
    destruct (py_index _ idx) as [i|]; simpl; [|done].
    destruct (documents (state w) !! i) as [d|]; simpl; [|done].
    pose proof (search_loop_world pairs w) as Hw.
    destruct (search_loop pairs w) as [w' [e|hits]] eqn:E; simpl in *; [done|].
    intros [= <-]. simpl. apply sublist_skip. by apply IH.
Qed.

Lemma search_loop_total (pairs : list (score * Z)) (w : world) :
  (∀ i, i ∈ id_list (state w) → is_Some (documents (state w) !! i)) →
  Forall (λ p, (-1 ≤ p.2)%Z) pairs →
  ∃ results,
    search_loop pairs w = (w, inr results)
    ∧ length results = length (filter (in_range (length (id_list (state w)))) pairs).
Proof.
  intros Hdocs. induction pairs as [|[dist idx] pairs IH]; intros Hlab.
  - exists []. done.
  - apply Forall_cons in Hlab as [Hidx Hlab]. simpl in Hidx.
    destruct (IH Hlab) as (results & Hloop & Hlen).
    simpl. run_monad. rewrite filter_cons. case_match eqn:Hskip.
    + apply orb_true_iff in Hskip.
      rewrite decide_False.
      { exists results. split; [by rewrite Hloop|done]. }
      unfold in_range. simpl.
      destruct Hskip as [Hm%bool_decide_eq_true|Hm%bool_decide_eq_true]; lia.
    + apply orb_false_iff in Hskip as [Hm1%bool_decide_eq_false Hm2%bool_decide_eq_false].
      rewrite decide_True by (unfold in_range; simpl; lia).
      unfold py_index. rewrite (proj2 (Z.leb_le 0 idx)) by lia.
      destruct (lookup_lt_is_Some_2 (id_list (state w)) (Z.to_nat idx)) as [i Hi]; [lia|].
      rewrite Hi. simpl.
      destruct (Hdocs i) as [d Hd]; [by eapply list_elem_of_lookup_2|].
      rewrite Hd. simpl. rewrite Hloop.
      eexists. split; [done|]. simpl. by rewrite Hlen.
Qed.

(** X1.  A search never mutates anything: whatever it replies, the index,
    the state and the files are those from before the request. *)
Theorem search_is_read_only (q : search_request) (w : world) :
  (search q w).1 = w.
Proof. apply search_world. Qed.

(** X2.  Every hit of a successful search names an id of the row order
    that has a stored document, and carries that document's text and
    metadata. *)
Theorem search_hits_are_stored (q : search_request) (w : world) (results : list hit) :
  (search q w).2 = SearchOk results →
  ∀ h, h ∈ results →
    hit_id h ∈ id_list (state w)
    ∧ documents (state w) !! hit_id h =
        Some {| doc_text := hit_text h; doc_metadata := hit_metadata h |}.
Proof.
  intros Hres h Hh. apply search_results_ids in Hres.
  rewrite Forall_forall in Hres.
  destruct (Hres h Hh) as (Hin & [t m] & Hd & Ht & Hm). simpl in *.
  split; [done|]. by rewrite Hd, Ht, Hm.
Qed.

(** X3.  The hits keep the ranking of the index: their scores are, in
    order, a sublist of the distances [index.search] returned, so there
    are never more hits than returned rows. *)
Theorem search_keeps_ranking (q : search_request) (w : world) (query : string)
    (v : vec) (pairs : list (score * Z)) (results : list hit) :
  req_query q = Some query → query ≠ "" →
  encode ("query: " +:+ query) = Some v →
  ntotal w ≠ 0 →
  index_search (index w) (normalize_L2 v) (default 5%Z (req_top_k q)) = Some pairs →
  (search q w).2 = SearchOk results →
  sublist (map hit_score results) (map fst pairs)
  ∧ length results ≤ length pairs.
Proof.
  intros Hq Hne Hv Hn Hpairs. unfold search. rewrite Hq. simpl.
  rewrite bool_decide_eq_false_2 by done. run_monad. simpl.
  rewrite Hv. simpl. rewrite bool_decide_eq_false_2 by done. simpl.
  rewrite Hpairs. simpl.
  pose proof (search_loop_scores pairs w) as Hs.
  destruct (search_loop pairs w) as [w' [e|r]]; simpl in *; [done|].
  intros [= <-]. specialize (Hs r eq_refl). split; [done|].
  apply sublist_length in Hs. by rewrite !length_map in Hs.
Qed.

(** X4.  When every id of the row order has a stored document and the
    labels returned by [index.search] are [-1] or larger, the search
    succeeds and yields exactly one hit for each label that names a row of
    the row order; the padding label [-1] and labels past the row order
    are skipped without an error. *)
Theorem search_succeeds_on_linked_rows (q : search_request) (w : world) (query : string)
    (v : vec) (pairs : list (score * Z)) :
  req_query q = Some query → query ≠ "" →
  encode ("query: " +:+ query) = Some v →
  ntotal w ≠ 0 →
  index_search (index w) (normalize_L2 v) (default 5%Z (req_top_k q)) = Some pairs →
  (∀ i, i ∈ id_list (state w) → is_Some (documents (state w) !! i)) →
  Forall (λ p, (-1 ≤ p.2)%Z) pairs →
  ∃ results,
    search q w = (w, SearchOk results)
    ∧ length results = length (filter (in_range (length (id_list (state w)))) pairs).
Proof.
  intros Hq Hne Hv Hn Hpairs Hdocs Hlab.
  destruct (search_loop_total pairs w Hdocs Hlab) as (results & Hloop & Hlen).
  exists results. split; [|done].
  unfold search. rewrite Hq. simpl.
  rewrite bool_decide_eq_false_2 by done. run_monad. simpl.
  rewrite Hv. simpl. rewrite bool_decide_eq_false_2 by done. simpl.
  rewrite Hpairs. simpl. by rewrite Hloop.
Qed.

(** ** Delete, case by case *)

Lemma delete_document_cases (X : string) (w : world) :
  is_Some (documents (state w) !! X) →
  let docs' := delete X (documents (state w)) in
  let cache' := delete X (embeddings (state w)) in
  delete_document X w =
    match list_remove_first X (id_list (state w)) with
    | None =>
        ({| index := index w;
            state := {| documents := docs'; id_list := id_list (state w);
                        embeddings := embeddings (state w) |};
            disk := disk w |}, ServerError ValueError)
    | Some ids' =>
        match embeddings (state w) !! X with
        | None =>
            ({| index := index w;
                state := {| documents := docs'; id_list := ids';
                            embeddings := embeddings (state w) |};
                disk := disk w |}, ServerError (KeyError X))
        | Some _ =>
            let s' := {| documents := docs'; id_list := ids'; embeddings := cache' |} in
            match mapM (λ i, cache' !! i) ids' with
            | Some rows =>
                (saved {| index := rows; state := s'; disk := disk w |}, Deleted)
            | None =>
                ({| index := []; state := s'; disk := disk w |},
                 ServerError (KeyError
                   (default "" (head (filter (λ i, cache' !! i = None) ids')))))
            end
        end
    end.
Proof.
  intros [d Hd]. simpl. unfold delete_document.
  rewrite bool_decide_eq_false_2 by congruence.
  unfold saved. run_monad. simpl. rewrite Hd. simpl.
  destruct (list_remove_first X (id_list (state w))) as [ids'|]; simpl; [|done].
  destruct (embeddings (state w) !! X) as [v|]; simpl; [|done].
  destruct ids' as [|i ids']; [done|].
  rewrite gather_vectors_spec. simpl state. simpl embeddings. simpl id_list.
  by destruct (mapM _ (i :: ids')).
Qed.

Lemma batch_loop_frame (docs : list doc_request) :
  ∀ (i : nat) (rows : list vec) (w : world),
    index (batch_loop i docs rows w).1 = index w
    ∧ disk (batch_loop i docs rows w).1 = disk w.
Proof.
  induction docs as [|d docs IH]; intros i rows w; [done|].
  simpl. run_monad.
  destruct (req_id d) as [doc_id|]; simpl; [|done].
  destruct (req_text d) as [txt|]; simpl; [|done].
  destruct (rows !! i) as [row|]; simpl; [|done].
  match goal with |- context [batch_loop (S i) docs rows ?w1] =>
    destruct (IH (S i) rows w1) as [Hix Hdk];
    destruct (batch_loop (S i) docs rows w1) as [w2 [e|[]]] end;
    simpl in *; by rewrite Hix, Hdk.
Qed.

Lemma search_never_commits (q : search_request) (w : world) :
  committed (search q w).2 = false.
Proof.
  unfold search. destruct (falsy (req_query q)); [done|].
  run_monad. destruct (mapM encode _); simpl; [|done].
  case_bool_decide; simpl; [done|].
  destruct (map normalize_L2 _ !! 0); simpl; [|done].
  destruct (index_search _ _ _) as [pairs|]; simpl; [|done].
  by destruct (search_loop pairs w) as [w' [e|r]].
Qed.

(** What a non-empty batch does once its texts are encoded. *)
Lemma add_documents_batch_encoded (docs : list doc_request) (w : world)
    (ts : list string) (rows : list vec) :
  docs ≠ [] →
  mapM req_text docs = Some ts →
  mapM encode (map (λ t, "passage: " +:+ t) ts) = Some rows →
  let w0 := {| index := index w ++ map normalize_L2 rows;
               state := state w; disk := disk w |} in
  add_documents_batch docs w =
    match batch_loop 0 docs (map normalize_L2 rows) w0 with
    | (w1, inl e) => (w1, ServerError e)
    | (w1, inr _) =>
        (saved w1, BatchOk (length docs) (Some (length (id_list (state w1)))))
    end.
Proof.
  intros Hne Hts Henc w0. subst w0. destruct docs as [|d docs]; [done|].
  unfold add_documents_batch. unfold try_except, bind at 1.
  rewrite batch_texts_spec, Hts.
  unfold model_encode, or_raise, bind at 1. rewrite Henc.
  unfold ret at 1. unfold index_add, modify, bind at 1. unfold bind at 1.
  by destruct (batch_loop 0 (d :: docs) (map normalize_L2 rows) _) as [w1 [e|[]]].
Qed.

(** ** Persistence *)

Lemma saved_disk (w : world) : disk (saved w) = snapshot (saved w).
Proof. done. Qed.

Lemma handle_commit_disk (r : request) (w : world) :
  committed (handle r w).2 = true →
  disk (handle r w).1 = snapshot (handle r w).1.
Proof.
  destruct r as [data|docs|q|X|]; simpl.
  - destruct (falsy (req_id data) || falsy (req_text data)) eqn:Hf.
    { by rewrite add_document_invalid. }
    apply orb_false_iff in Hf as [Hfi Hft].
    destruct (falsy_false _ Hfi) as (i & Hi & Hine).
    destruct (falsy_false _ Hft) as (t & Ht & Htne).
    destruct (encode ("passage: " +:+ t)) as [v|] eqn:Henc.
    + by rewrite (add_document_ok data w i t v).
    + by rewrite (add_document_encode_failure data w t).
  - destruct docs as [|d0 docs]; [done|].
    destruct (mapM req_text (d0 :: docs)) as [ts|] eqn:Hts.
    2: { rewrite add_documents_batch_early_failure; [done..|]. by rewrite Hts. }
    destruct (mapM encode (map (λ t, "passage: " +:+ t) ts)) as [rows|] eqn:Henc.
    2: { rewrite add_documents_batch_early_failure; [done..|]. by rewrite Hts. }
    rewrite (add_documents_batch_encoded _ w ts rows) by done.
    by destruct (batch_loop 0 _ _ _) as [w1 [e|[]]].
  - by rewrite search_never_commits.
  - destruct (documents (state w) !! X) as [d|] eqn:Hd.
    2: { by rewrite delete_document_not_found. }
    rewrite delete_document_cases by (by exists d). simpl.
    repeat case_match; done.
  - done.
Qed.


(** X7.  Restart after a successful mutation: if the serialisers read
    back the index and the state the request left in memory, then
    [init_faiss] on the files it wrote gives back exactly that engine. *)
Theorem restart_after_commit (r : request) (w : world) :
  committed (handle r w).2 = true →
  let w' := (handle r w).1 in
  read_index (write_index (index w')) = Some (index w') →
  json_load (json_dump (state w')) = Some (state w') →
  init_faiss (disk w') = w'.
Proof.
  intros Hc. pose proof (handle_commit_disk r w Hc) as Hd.
  destruct (handle r w).1 as [ix st dk]. unfold snapshot in Hd. simpl in *.
  subst dk. intros Hix Hst. unfold init_faiss. simpl. by rewrite Hix, Hst.
Qed.

(** X8.  Start-up adopts both artifacts or none: [init_faiss] never
    touches the files, and either it starts from the empty index and the
    empty state, or both files exist and it holds what both readers
    returned.  A readable index next to an unreadable state is dropped. *)
Theorem init_faiss_both_or_nothing (d : disk_t) :
  disk (init_faiss d) = d
  ∧ ((index (init_faiss d) = [] ∧ state (init_faiss d) = empty_state)
     ∨ ∃ b t, index_file d = Some b ∧ state_file d = Some t
              ∧ read_index b = Some (index (init_faiss d))
              ∧ json_load t = Some (state (init_faiss d)))
  ∧ (∀ b t, index_file d = Some b → state_file d = Some t →
       read_index b = None ∨ json_load t = None →
       index (init_faiss d) = [] ∧ state (init_faiss d) = empty_state).
Proof.
  unfold init_faiss.
  destruct (index_file d) as [b|] eqn:Hb, (state_file d) as [t|] eqn:Ht; simpl;
    try (split_and!; [done|by left|done]).
  destruct (read_index b) as [rows|] eqn:Hr, (json_load t) as [s|] eqn:Hs; simpl.
  - split_and!; [done|right; by exists b, t|].
    intros b' t' [= <-] [= <-] [?|?]; congruence.
  - split_and!; [done|by left|done].
  - split_and!; [done|by left|done].
  - split_and!; [done|by left|done].
Qed.

(** ** What every run keeps *)

Lemma linked_store_one (e : string * document * vec) (s : state_t) :
  linked s → linked (store_one e s).
Proof.
  intros [Hdom Hin]. unfold linked, store_one. simpl. split.
  - by rewrite !dom_insert_L, Hdom.
  - intros i. rewrite dom_insert_L, elem_of_union, elem_of_singleton, elem_of_app.
    intros [->|Hi]; [right; apply list_elem_of_here|left; by apply Hin].
Qed.

Lemma batch_loop_linked (docs : list doc_request) :
  ∀ (i : nat) (rows : list vec) (w : world),
    i + length docs ≤ length rows →
    linked (state w) → linked (state (batch_loop i docs rows w).1).
Proof.
  induction docs as [|d docs IH]; intros i rows w Hlen Hl; [done|].
  simpl in *. run_monad.
  destruct (req_id d) as [doc_id|]; simpl; [|done].
  destruct (req_text d) as [txt|]; simpl; [|done].
  destruct (lookup_lt_is_Some_2 rows i) as [row Hrow]; [lia|].
  rewrite Hrow. simpl.
  match goal with |- context [batch_loop (S i) docs rows ?w1] =>
    pose proof (IH (S i) rows w1) as IH1;
    destruct (batch_loop (S i) docs rows w1) as [w2 [e|[]]] end;
    simpl in *; apply IH1; try lia;
    apply (linked_store_one (doc_id, _, row)); done.
Qed.

Lemma linked_delete (X : string) (s : state_t) (ids' : list string) :
  linked s → list_remove_first X (id_list s) = Some ids' →
  linked {| documents := delete X (documents s); id_list := ids';
            embeddings := delete X (embeddings s) |}.
Proof.
  intros [Hdom Hin] Hrm. unfold linked. simpl. split.
  - by rewrite !dom_delete_L, Hdom.
  - intros i. rewrite dom_delete_L, elem_of_difference, elem_of_singleton.
    intros [Hi Hne]. apply Hin in Hi.
    assert (X ∈ id_list s) as HX.
    { clear -Hrm. revert ids' Hrm. induction (id_list s) as [|y l IH]; [done|].
      simpl. case_bool_decide as Hy; [subst; intros; apply list_elem_of_here|].
      destruct (list_remove_first X l); [|done].
      intros ids' _. apply list_elem_of_further. by eapply IH. }
    destruct (list_remove_first_elem X _ HX) as (l1 & l2 & Hl & _ & Hrm').
    rewrite Hrm in Hrm'. injection Hrm' as ->.
    rewrite Hl, elem_of_app, elem_of_cons in Hi. rewrite elem_of_app.
    destruct Hi as [?|[?|?]]; [by left|done|by right].
Qed.

Lemma handle_linked (r : request) (w : world) :
  linked (state w) → linked (state (handle r w).1).
Proof.
  intros Hl. destruct r as [data|docs|q|X|]; simpl.
  - destruct (falsy (req_id data) || falsy (req_text data)) eqn:Hf.
    { by rewrite add_document_invalid. }
    apply orb_false_iff in Hf as [Hfi Hft].
    destruct (falsy_false _ Hfi) as (i & Hi & Hine).
    destruct (falsy_false _ Hft) as (t & Ht & Htne).
    destruct (encode ("passage: " +:+ t)) as [v|] eqn:Henc.
    + rewrite (add_document_ok data w i t v) by done. simpl.
      by apply linked_store_one.
    + by rewrite (add_document_encode_failure data w t).
  - destruct docs as [|d0 docs]; [done|].
    destruct (mapM req_text (d0 :: docs)) as [ts|] eqn:Hts.
    2: { rewrite add_documents_batch_early_failure; [done..|]. by rewrite Hts. }
    destruct (mapM encode (map (λ t, "passage: " +:+ t) ts)) as [rows|] eqn:Henc.
    2: { rewrite add_documents_batch_early_failure; [done..|]. by rewrite Hts. }
    rewrite (add_documents_batch_encoded _ w ts rows) by done.
    assert (length (d0 :: docs) = length (map normalize_L2 rows)) as Hlen.
    { apply length_mapM in Hts, Henc. rewrite length_map in *. lia. }
    match goal with |- context [batch_loop 0 ?ds ?rs ?w0] =>
      pose proof (batch_loop_linked ds 0 rs w0) as Hb;
      destruct (batch_loop 0 ds rs w0) as [w1 [e|[]]] end;
      apply Hb; try done; rewrite <-Hlen; simpl; lia.
  - by rewrite search_world.
  - destruct (documents (state w) !! X) as [d|] eqn:Hd.
    2: { by rewrite delete_document_not_found. }
    rewrite delete_document_cases by (by exists d). simpl.
    assert (X ∈ id_list (state w)) as HX.
    { apply Hl, elem_of_dom. by exists d. }
    destruct (list_remove_first_elem X _ HX) as (l1 & l2 & _ & _ & Hrm).
    rewrite Hrm.
    assert (is_Some (embeddings (state w) !! X)) as [v Hv].
    { apply elem_of_dom. rewrite (proj1 Hl). apply elem_of_dom. by exists d. }
    rewrite Hv. destruct (mapM _ (l1 ++ l2)); simpl; by apply linked_delete.
  - unfold linked. simpl. rewrite !dom_empty_L. split; [done|]. set_solver.
Qed.

Lemma run_linked (rs : list request) :
  ∀ w, linked (state w) → linked (state (run rs w)).
Proof.
  induction rs as [|r rs IH]; intros w Hl; [done|].
  simpl. by apply IH, handle_linked.
Qed.

Lemma size_list_to_set_le (l : list string) :
  size (list_to_set (C:=gset string) l) ≤ length l.
Proof.
  induction l as [|x l IH]; [done|].
  simpl. rewrite size_union_alt, size_singleton.
  pose proof (subseteq_size (list_to_set (C:=gset string) l ∖ {[x]}) (list_to_set l)) as Hs.
  etrans; [apply Nat.add_le_mono_l, Hs; by intros i [Hi _]%elem_of_difference|]. lia.
Qed.

(** X9.  Whatever requests are served from the empty engine, re-adds and
    failing requests included, the documents and the cache hold the same
    ids, every stored id has an entry in the row order, and so there are
    as many cached vectors as documents and at least as many row-order
    entries. *)
Theorem documents_and_cache_stay_linked (rs : list request) :
  let s := state (run rs fresh_world) in
  dom (embeddings s) = dom (documents s)
  ∧ (∀ i, is_Some (documents s !! i) → i ∈ id_list s)
  ∧ size (embeddings s) = size (documents s)
  ∧ size (documents s) ≤ length (id_list s).
Proof.
  intros s. assert (linked s) as [Hdom Hin].
  { apply run_linked. unfold linked, fresh_world. simpl.
    rewrite !dom_empty_L. split; [done|]. set_solver. }
  split_and!; [done| | |].
  - intros i Hi. by apply Hin, elem_of_dom.
  - by rewrite <-!(size_dom (D:=gset string)), Hdom.
  - rewrite <-(size_dom (D:=gset string)).
    etrans; [|apply size_list_to_set_le]. apply subseteq_size.
    intros i Hi. apply elem_of_list_to_set. by apply Hin.
Qed.

(** X10.  In a run from the empty engine where no id is stored twice (no
    re-add, no repeated or missing id in a batch), the row order has no
    duplicates, its ids are exactly the stored ids, and row [i] of the
    index is the cached vector of [id_list[i]]. *)
Theorem rows_stay_aligned_without_readd (rs : list request) :
  admissible_run rs fresh_world = true →
  let w := run rs fresh_world in
  NoDup (id_list (state w))
  ∧ dom (documents (state w)) = list_to_set (id_list (state w))
  ∧ Forall2 (λ i row, embeddings (state w) !! i = Some row)
            (id_list (state w)) (index w).
Proof.
  intros Hadm w.
  destruct (run_consistent rs fresh_world consistent_fresh Hadm) as (? & ? & _ & ?).
  done.
Qed.

(** ** Delete *)

Lemma filter_eq_nil_notin (X : string) (l : list string) :
  X ∉ l → filter (λ i, i = X) l = [].
Proof.
  intros HX. destruct (filter (λ i, i = X) l) as [|y k] eqn:Hf; [done|].
  assert (y ∈ filter (λ i, i = X) l) as Hy by (rewrite Hf; apply list_elem_of_here).
  apply list_elem_of_filter in Hy as [-> ?]. done.
Qed.

Lemma head_filter_unique (P : string → Prop) `{!∀ i, Decision (P i)}
    (X : string) (l : list string) :
  (∀ i, i ∈ l → P i → i = X) → X ∈ l → P X →
  head (filter P l) = Some X.
Proof.
  intros Huniq HX HP.
  assert (X ∈ filter P l) as Hin by (by apply list_elem_of_filter).
  destruct (filter P l) as [|y k] eqn:Hf; [by apply elem_of_nil in Hin|].
  assert (y ∈ filter P l) as Hy by (rewrite Hf; apply list_elem_of_here).
  apply list_elem_of_filter in Hy as [HPy Hy]. simpl. f_equal. by apply Huniq.
Qed.


Lemma head_filter_Some (P : string → Prop) `{!∀ i, Decision (P i)}
    (X : string) (l : list string) :
  X ∈ l → P X → ∃ k, head (filter P l) = Some k ∧ k ∈ l ∧ P k.
Proof.
  intros HX HP.
  assert (X ∈ filter P l) as Hin by (by apply list_elem_of_filter).
  destruct (filter P l) as [|y k] eqn:Hf; [by apply elem_of_nil in Hin|].
  assert (y ∈ filter P l) as Hy by (rewrite Hf; apply list_elem_of_here).
  apply list_elem_of_filter in Hy as [HPy Hy]. by exists y.
Qed.

Lemma delete_with_second_row (X : string) (w : world) :
  is_Some (documents (state w) !! X) →
  is_Some (embeddings (state w) !! X) →
  2 ≤ length (filter (λ i, i = X) (id_list (state w))) →
  let w' := (delete_document X w).1 in
  (∃ k, (delete_document X w).2 = ServerError (KeyError k)
        ∧ k ∈ id_list (state w')
        ∧ embeddings (state w') !! k = None
        ∧ ((∀ i, i ∈ id_list (state w) → is_Some (embeddings (state w) !! i)) → k = X))
  ∧ ntotal w' = 0
  ∧ documents (state w') = delete X (documents (state w))
  ∧ embeddings (state w') = delete X (embeddings (state w))
  ∧ list_remove_first X (id_list (state w)) = Some (id_list (state w'))
  ∧ X ∈ id_list (state w')
  ∧ disk w' = disk w.
Proof.
  intros Hd [v Hv] Htwice w'. subst w'.
  assert (X ∈ id_list (state w)) as HX.
  { destruct (decide (X ∈ id_list (state w))) as [|Hn]; [done|].
    rewrite (filter_eq_nil_notin _ _ Hn) in Htwice. simpl in Htwice. lia. }
  destruct (list_remove_first_elem X _ HX) as (l1 & l2 & Hl & Hl1 & Hrm).
  assert (X ∈ l1 ++ l2) as Hrest.
  { apply elem_of_app. right.
    destruct (decide (X ∈ l2)) as [|Hn]; [done|].
    rewrite Hl, filter_app, filter_cons_True, length_app in Htwice by done.
    rewrite (filter_eq_nil_notin _ _ Hl1), (filter_eq_nil_notin _ _ Hn) in Htwice.
    simpl in Htwice. lia. }
  rewrite delete_document_cases by done. simpl. rewrite Hrm, Hv.
  destruct (mapM (λ i, delete X (embeddings (state w)) !! i) (l1 ++ l2))
    as [rows|] eqn:Hm.
  { apply mapM_Some_1 in Hm. apply list_elem_of_lookup in Hrest as [n Hn].
    destruct (Forall2_lookup_l _ _ _ _ _ Hm Hn) as (row & _ & Hrow).
    by rewrite lookup_delete_eq in Hrow. }
  destruct (head_filter_Some (λ i, delete X (embeddings (state w)) !! i = None)
              X (l1 ++ l2) Hrest) as (k & Hk & Hkin & Hknone);
    [apply lookup_delete_eq|].
  simpl. rewrite Hk. simpl. split_and!; try done.
  exists k. split_and!; try done.
  intros Hcached. destruct (decide (k = X)) as [|Hne]; [done|].
  rewrite lookup_delete_ne in Hknone by done.
  destruct (Hcached k) as [? ?]; [|congruence].
  rewrite Hl, elem_of_app, elem_of_cons.
  apply elem_of_app in Hkin as [?|?]; auto.
Qed.

(** X12.  In every state reached from the empty engine, deleting a stored
    id that owns two or more entries of the row order (it was added again
    while stored) fails half-way: the reply is the 500 of a [KeyError]
    for a row-order id left without cached vector, which is [X] itself
    when every entry had one; the document and the cached vector of [X]
    are gone, one entry of [X] has left the row order and another is
    still there, the index has been replaced by an empty one, and the
    files were not rewritten. *)
Theorem delete_of_readded_id_fails (rs : list request) (X : string) :
  let w := run rs fresh_world in
  is_Some (documents (state w) !! X) →
  2 ≤ length (filter (λ i, i = X) (id_list (state w))) →
  let w' := (delete_document X w).1 in
  (∃ k, (delete_document X w).2 = ServerError (KeyError k)
        ∧ k ∈ id_list (state w')
        ∧ embeddings (state w') !! k = None
        ∧ ((∀ i, i ∈ id_list (state w) → is_Some (embeddings (state w) !! i)) → k = X))
  ∧ ntotal w' = 0
  ∧ documents (state w') = delete X (documents (state w))
  ∧ embeddings (state w') = delete X (embeddings (state w))
  ∧ list_remove_first X (id_list (state w)) = Some (id_list (state w'))
  ∧ X ∈ id_list (state w')
  ∧ disk w' = disk w.
Proof.
  intros w Hd Htwice. apply delete_with_second_row; [done| |done].
  assert (linked (state w)) as [Hdom _].
  { apply run_linked. unfold linked, fresh_world. simpl.
    rewrite !dom_empty_L. split; [done|]. set_solver. }
  apply elem_of_dom. rewrite Hdom. by apply elem_of_dom.
Qed.


(** ** Batch add *)

Lemma id_list_store_all (entries : list (string * document * vec)) :
  ∀ s, id_list (store_all entries s) = id_list s ++ map (λ e, e.1.1) entries.
Proof.
  induction entries as [|e entries IH]; intros s.
  - simpl. by rewrite app_nil_r.
  - rewrite store_all_cons, IH. simpl. by rewrite <-(assoc_L (++)).
Qed.

Lemma run_adds_spec (docs : list doc_request) :
  Forall addable docs →
  ∃ ts rows entries,
    mapM req_text docs = Some ts
    ∧ mapM encode (map (λ t, "passage: " +:+ t) ts) = Some rows
    ∧ mapM (λ p, batch_entry p.1 p.2) (zip docs (map normalize_L2 rows)) = Some entries
    ∧ ∀ w, index (run (map Add docs) w) = index w ++ map normalize_L2 rows
           ∧ state (run (map Add docs) w) = store_all entries (state w)
           ∧ (docs ≠ [] →
              disk (run (map Add docs) w) = snapshot (run (map Add docs) w)).
Proof.
  induction 1 as [|d docs (i & t & v & Hi & Hine & Ht & Htne & Hv) _ IH].
  - exists [], [], []. split_and!; try done. intros w. simpl.
    by rewrite app_nil_r.
  - destruct IH as (ts & rows & entries & Hts & Hrows & Hent & Hrun).
    exists (t :: ts), (v :: rows),
      ((i, {| doc_text := t; doc_metadata := default (JObj []) (req_metadata d) |},
        normalize_L2 v) :: entries).
    split_and!.
    + simpl. by rewrite Ht, Hts.
    + simpl. by rewrite Hv, Hrows.
    + simpl. rewrite Hent. unfold batch_entry. simpl. by rewrite Hi, Ht.
    + intros w. simpl. rewrite (add_document_ok d w i t v) by done. cbn [fst].
      destruct (Hrun (saved {| index := index w ++ [normalize_L2 v];
                               state := store_one
                                 (i, {| doc_text := t;
                                        doc_metadata := default (JObj []) (req_metadata d) |},
                                  normalize_L2 v) (state w);
                               disk := disk w |})) as (Hix & Hst & Hdk).
      split_and!.
      * rewrite Hix. simpl. by rewrite <-(assoc_L (++)).
      * by rewrite Hst.
      * intros _. destruct docs as [|d' docs]; [done|]. by apply Hdk.
Qed.

(** X14.  A batch equals the single adds in order: for a non-empty batch
    of documents that the single add accepts (non-empty id and text) and
    the encoder encodes, one add_batch request leaves the same index, the
    same state and the same files as adding the documents one by one. *)
Theorem batch_equals_single_adds (docs : list doc_request) (w : world) :
  docs ≠ [] → Forall addable docs →
  (add_documents_batch docs w).1 = run (map Add docs) w
  ∧ is_error (add_documents_batch docs w).2 = false.
Proof.
  intros Hne Hall.
  destruct (run_adds_spec docs Hall) as (ts & rows & entries & Hts & Hrows & Hent & Hrun).
  destruct (Hrun w) as (Hix & Hst & Hdk). specialize (Hdk Hne).
  rewrite (add_documents_batch_ok docs w ts rows entries) by done.
  split; [|done]. cbn [fst].
  destruct (run (map Add docs) w) as [ix st dk]. unfold snapshot in Hdk.
  simpl in *. by subst.
Qed.


(** X16.  The batch path has no check for empty fields: a document whose
    id or text is the empty string is refused by the single add with the
    400 reply, while a batch holding just that document stores it, under
    the id it carries. *)
Theorem batch_stores_what_add_refuses (w : world) (i t : string) (meta : option json)
    (v : vec) :
  i = "" ∨ t = "" →
  encode ("passage: " +:+ t) = Some v →
  let d := {| req_id := Some i; req_text := Some t; req_metadata := meta |} in
  let w' := (add_documents_batch [d] w).1 in
  (add_document d w).2 = BadRequest "Missing id or text"
  ∧ (add_documents_batch [d] w).2 = BatchOk 1 (Some (S (length (id_list (state w)))))
  ∧ documents (state w') !! i =
      Some {| doc_text := t; doc_metadata := default (JObj []) meta |}
  ∧ embeddings (state w') !! i = Some (normalize_L2 v)
  ∧ last (id_list (state w')) = Some i.
Proof.
  intros Hempty Henc d w'. subst w'. split.
  { rewrite add_document_invalid; [done|]. subst d. simpl.
    destruct Hempty as [-> | ->]; [done|]. apply orb_true_iff. right.
    by apply bool_decide_eq_true. }
  rewrite (add_documents_batch_ok [d] w [t] [v]
             [(i, {| doc_text := t; doc_metadata := default (JObj []) meta |},
               normalize_L2 v)]); [..|done].
  - simpl. rewrite !lookup_insert_eq, last_snoc, length_app. simpl.
    split_and!; try done. do 2 f_equal. lia.
  - done.
  - done.
  - simpl. by rewrite Henc.
Qed.

(** ** Listing, add and clear *)

(** X17.  The listing answers exactly when every stored metadata is a JSON
    object; then it has one row per stored document, each row being the
    projection of the document stored under the row's id. *)
Theorem listing_has_one_row_per_document (w : world) :
  (is_Some (get_documents w)
   ↔ ∀ i d, documents (state w) !! i = Some d → is_object (doc_metadata d) = true)
  ∧ ∀ views, get_documents w = Some views →
      length views = size (documents (state w))
      ∧ ∀ vw, vw ∈ views
              ↔ ∃ d, documents (state w) !! view_id vw = Some d
                     ∧ project (view_id vw) d = Some vw.
Proof.
  split; [apply get_documents_is_Some|].
  intros views Hviews. unfold get_documents in Hviews. split.
  - apply length_mapM in Hviews. by rewrite <-Hviews, length_map_to_list.
  - apply mapM_Some_1 in Hviews. intros vw. split.
    + intros [n Hn]%list_elem_of_lookup.
      destruct (Forall2_lookup_r _ _ _ _ _ Hviews Hn) as ([i d] & Hkv & Hp).
      simpl in Hp. rewrite (project_id _ _ _ Hp). exists d. split; [|done].
      apply elem_of_map_to_list. by eapply list_elem_of_lookup_2.
    + intros (d & Hd & Hp). apply elem_of_map_to_list in Hd.
      apply list_elem_of_lookup in Hd as [n Hn].
      destruct (Forall2_lookup_l _ _ _ _ _ Hviews Hn) as (vw' & Hvw' & Hp').
      simpl in Hp'. rewrite Hp in Hp'. injection Hp' as <-.
      by eapply list_elem_of_lookup_2.
Qed.

(** X18.  Metadata that is sent but is not a JSON object (for instance
    null) is stored as it is by add, and from then on the listing fails:
    [meta.get] does not exist on such a value. *)
Theorem non_object_metadata_breaks_listing (data : doc_request) (w : world)
    (X t : string) (v : vec) (m : json) :
  req_id data = Some X → X ≠ "" →
  req_text data = Some t → t ≠ "" →
  encode ("passage: " +:+ t) = Some v →
  req_metadata data = Some m → is_object m = false →
  let w' := (add_document data w).1 in
  (add_document data w).2 = AddOk X
  ∧ documents (state w') !! X = Some {| doc_text := t; doc_metadata := m |}
  ∧ get_documents w' = None.
Proof.
  intros Hid HX Ht Hne Henc Hmeta Hobj w'. subst w'.
  rewrite (add_document_ok data w X t v) by done. cbn [fst snd].
  rewrite Hmeta. simpl default.
  assert (documents (state (saved
            {| index := index w ++ [normalize_L2 v];
               state := store_one (X, {| doc_text := t; doc_metadata := m |},
                                   normalize_L2 v) (state w);
               disk := disk w |})) !! X
          = Some {| doc_text := t; doc_metadata := m |}) as Hdoc
    by apply lookup_insert_eq.
  split_and!; [done|done|].
  destruct (get_documents _) as [views|] eqn:Hg; [|done].
  assert (is_object m = true); [|congruence].
  eapply (proj1 (get_documents_is_Some _)) in Hdoc; [exact Hdoc|].
  rewrite Hg. by eexists.
Qed.

(** X19.  After a successful add the document and the vector can be read
    back under the id, the id and the vector are the last entries of the
    row order and of the index, and nothing else moved: the other ids
    keep their document and cached vector, and the earlier rows and
    row-order entries keep their positions. *)
Theorem add_then_lookup (data : doc_request) (w : world) (X t : string) (v : vec) :
  req_id data = Some X → X ≠ "" →
  req_text data = Some t → t ≠ "" →
  encode ("passage: " +:+ t) = Some v →
  let w' := (add_document data w).1 in
  documents (state w') !! X =
    Some {| doc_text := t; doc_metadata := default (JObj []) (req_metadata data) |}
  ∧ embeddings (state w') !! X = Some (normalize_L2 v)
  ∧ last (id_list (state w')) = Some X
  ∧ last (index w') = Some (normalize_L2 v)
  ∧ (∀ j, j ≠ X →
       documents (state w') !! j = documents (state w) !! j
       ∧ embeddings (state w') !! j = embeddings (state w) !! j)
  ∧ (∀ n, n < length (id_list (state w)) →
       id_list (state w') !! n = id_list (state w) !! n)
  ∧ (∀ n, n < ntotal w → index w' !! n = index w !! n).
Proof.
  intros Hid HX Ht Hne Henc w'. subst w'.
  rewrite (add_document_ok data w X t v) by done. simpl.
  rewrite !lookup_insert_eq, !last_snoc. split_and!; try done.
  - intros j Hj. by rewrite !lookup_insert_ne.
  - intros n Hn. by apply lookup_app_l.
  - intros n Hn. by apply lookup_app_l.
Qed.

(** X20.  Clear always succeeds and resets any state, a broken one too:
    afterwards the index has no row, the state is empty and aligned, the
    files hold that empty snapshot, the listing is empty, every delete is
    answered with not-found, and a search that is answered without error
    has no hit. *)
Theorem clear_resets_everything (w : world) :
  let w' := (clear_index w).1 in
  (clear_index w).2 = Cleared
  ∧ stats w' = (0, EMBEDDING_DIM)
  ∧ state w' = empty_state
  ∧ consistent w'
  ∧ disk w' = snapshot w'
  ∧ get_documents w' = Some []
  ∧ (∀ X, delete_document X w' = (w', NotFound "Document not found"))
  ∧ (∀ q, is_error (search q w').2 = false → (search q w').2 = SearchOk []).
Proof.
  intros w'. subst w'. rewrite clear_index_spec. cbn [fst snd].
  split_and!; try done.
  - unfold consistent. simpl.
    split_and!; [constructor|by rewrite dom_empty_L|by rewrite !dom_empty_L|constructor].
  - intros q. unfold search. destruct (falsy (req_query q)); [done|].
    run_monad. destruct (mapM encode _); simpl; done.
Qed.

(** ** Requests that fail after they began to write *)

Lemma batch_loop_stops_at_missing_id (pre : list doc_request) :
  ∀ (i : nat) (rows : list vec) (w : world) (entries : list (string * document * vec))
    (d : doc_request) (post : list doc_request),
    req_id d = None →
    mapM (λ p, batch_entry p.1 p.2) (zip pre (drop i rows)) = Some entries →
    length pre ≤ length (drop i rows) →
    batch_loop i (pre ++ d :: post) rows w =
      (with_state (store_all entries) w, inl (MissingField "id")).
Proof.
  induction pre as [|d0 pre IH]; intros i rows w entries d post Hd Hent Hlen.
  - simpl in Hent. injection Hent as <-. simpl. run_monad. rewrite Hd. simpl.
    by destruct w.
  - destruct (drop i rows) as [|row rest] eqn:Hdrop; [simpl in Hlen; lia|].
    assert (rows !! i = Some row) as Hrow.
    { rewrite <-(Nat.add_0_r i), <-lookup_drop, Hdrop. done. }
    assert (drop (S i) rows = rest) as Hrest.
    { rewrite (drop_S _ _ _ Hrow) in Hdrop. congruence. }
    simpl in Hent.
    destruct (batch_entry d0 row) as [e|] eqn:He; simpl in Hent; [|done].
    destruct (mapM _ (zip pre rest)) as [entries'|] eqn:Hent'; simpl in Hent; [|done].
    injection Hent as <-. unfold batch_entry in He.
    simpl. run_monad.
    destruct (req_id d0) as [doc_id|]; simpl in *; [|done].
    destruct (req_text d0) as [txt|]; simpl in *; [|done].
    injection He as <-. rewrite Hrow. simpl.
    erewrite IH; [done|done| |].
    + by rewrite Hrest.
    + rewrite Hrest. lia.
Qed.

Lemma batch_entries_exist_prefix (pre : list doc_request) :
  ∀ (rows : list vec) (ids : list string),
    mapM req_id pre = Some ids →
    Forall (λ d, is_Some (req_text d)) pre →
    length pre ≤ length rows →
    ∃ entries,
      mapM (λ p, batch_entry p.1 p.2) (zip pre rows) = Some entries
      ∧ map (λ e, e.1.1) entries = ids.
Proof.
  induction pre as [|d pre IH]; intros rows ids Hids Hts Hlen.
  - injection Hids as <-. by exists [].
  - destruct rows as [|row rows]; [simpl in Hlen; lia|].
    apply Forall_cons in Hts as [[t Ht] Hts]. simpl in Hids, Hlen.
    destruct (req_id d) as [i|] eqn:Hi; simpl in *; [|done].
    destruct (mapM req_id pre) as [ids'|] eqn:Hids'; simpl in *; [|done].
    injection Hids as <-.
    destruct (IH rows ids' eq_refl Hts) as (entries & Hm & He); [lia|].
    rewrite Hm. unfold batch_entry. rewrite Hi, Ht. simpl.
    eexists. split; [done|]. simpl. by rewrite He.
Qed.

(** X21.  A batch document without an id is noticed too late: when the
    documents before it carry ids, every document has a text and the
    encoder succeeds, the reply is the 500 for the missing ['id'], yet the
    index has received the rows of the whole batch and the row order the
    ids of the documents before the faulty one; the files are not
    rewritten. *)
Theorem batch_with_missing_id_is_half_applied (pre post : list doc_request)
    (d : doc_request) (w : world) (ids ts : list string) (rows : list vec) :
  req_id d = None →
  mapM req_id pre = Some ids →
  mapM req_text (pre ++ d :: post) = Some ts →
  mapM encode (map (λ t, "passage: " +:+ t) ts) = Some rows →
  let docs := pre ++ d :: post in
  let w' := (add_documents_batch docs w).1 in
  (add_documents_batch docs w).2 = ServerError (MissingField "id")
  ∧ ntotal w' = ntotal w + length docs
  ∧ id_list (state w') = id_list (state w) ++ ids
  ∧ length (id_list (state w')) < length (id_list (state w)) + length docs
  ∧ disk w' = disk w.
Proof.
  intros Hd Hids Hts Henc docs w'. subst w' docs.
  assert (length rows = length (pre ++ d :: post)) as Hlen.
  { apply length_mapM in Hts, Henc. rewrite length_map in *. lia. }
  assert (Forall (λ d, is_Some (req_text d)) pre) as Hpre.
  { assert (is_Some (mapM req_text (pre ++ d :: post))) as Hs by (by rewrite Hts).
    apply mapM_is_Some_1, Forall_app in Hs as [Hs _]. done. }
  rewrite length_app in Hlen. simpl in Hlen.
  destruct (batch_entries_exist_prefix pre (map normalize_L2 rows) ids Hids Hpre)
    as (entries & Hent & Hids'); [rewrite length_map; lia|].
  rewrite (add_documents_batch_encoded _ w ts rows); [|by destruct pre|done|done].
  rewrite (batch_loop_stops_at_missing_id pre 0 _ _ entries); [|done|done|].
  2: { rewrite drop_0, length_map. lia. }
  simpl. rewrite id_list_store_all, Hids'.
  assert (length ids = length pre) as Hl by (by apply length_mapM in Hids).
  unfold ntotal. simpl. rewrite !length_app, length_map, Hl. simpl.
  split_and!; try done; lia.
Qed.

(** X22.  In every state reached from the empty engine, deleting a stored
    id forgets it whatever the reply: afterwards the id has no document
    and no cached vector.  The reply is never the not-found reply and
    never the [ValueError] of [list.remove]; and when it is the 500 of a
    [KeyError], the rebuild had begun and the index is left empty. *)
Theorem delete_always_forgets (rs : list request) (X : string) :
  let w := run rs fresh_world in
  is_Some (documents (state w) !! X) →
  let w' := (delete_document X w).1 in
  documents (state w') !! X = None
  ∧ embeddings (state w') !! X = None
  ∧ (∀ msg, (delete_document X w).2 ≠ NotFound msg)
  ∧ (delete_document X w).2 ≠ ServerError ValueError
  ∧ (∀ k, (delete_document X w).2 = ServerError (KeyError k) → ntotal w' = 0).
Proof.
  intros w [d Hd] w'. subst w'.
  assert (linked (state w)) as Hl.
  { apply run_linked. unfold linked, fresh_world. simpl.
    rewrite !dom_empty_L. split; [done|]. set_solver. }
  assert (X ∈ id_list (state w)) as HX.
  { apply Hl, elem_of_dom. by exists d. }
  destruct (list_remove_first_elem X _ HX) as (l1 & l2 & _ & _ & Hrm).
  assert (is_Some (embeddings (state w) !! X)) as [v Hv].
  { apply elem_of_dom. rewrite (proj1 Hl). apply elem_of_dom. by exists d. }
  rewrite delete_document_cases by (by exists d). simpl. rewrite Hrm, Hv.
  destruct (mapM _ (l1 ++ l2)); simpl; rewrite !lookup_delete_eq;
    split_and!; done.
Qed.

End Further.

(** * The further properties on concrete runs *)

Module FurtherRuns.
Import Toy.

Lemma search_hits_witness :
  let h := {| hit_id := "a"; hit_score := 0%Z;
              hit_text := "cats are mammals"; hit_metadata := JObj [] |} in
  hit_id h ∈ id_list (state (run three_docs fresh))
  ∧ documents (state (run three_docs fresh)) !! hit_id h =
      Some {| doc_text := hit_text h; doc_metadata := hit_metadata h |}.
Proof.
  intros h.
  eapply (search_hits_are_stored feline (run three_docs fresh)).
  - vm_compute. reflexivity.
  - apply list_elem_of_here.
Defined.

Lemma search_ranking_witness :
  let results := match (search feline (run three_docs fresh)).2 with
                 | SearchOk hits => hits
                 | _ => []
                 end in
  sublist (map hit_score results) [0%Z; 0%Z] ∧ length results ≤ 2.
Proof.
  intros results.
  apply (search_keeps_ranking feline (run three_docs fresh) "feline pets"
           [18%Z] [(0%Z, 0%Z); (0%Z, 1%Z)] results).
  - reflexivity.
  - discriminate.
  - vm_compute. reflexivity.
  - vm_compute. discriminate.
  - vm_compute. reflexivity.
  - vm_compute. reflexivity.
Defined.

Lemma search_succeeds_witness :
  ∃ results,
    search feline (run three_docs fresh) = (run three_docs fresh, SearchOk results)
    ∧ length results = 2.
Proof.
  destruct (search_succeeds_on_linked_rows feline (run three_docs fresh) "feline pets"
              [18%Z] [(0%Z, 0%Z); (0%Z, 1%Z)]) as (results & Hs & Hlen).
  - reflexivity.
  - discriminate.
  - vm_compute. reflexivity.
  - vm_compute. discriminate.
  - vm_compute. reflexivity.
  - apply Forall_forall. apply (bool_decide_unpack _). vm_compute. exact I.
  - apply (bool_decide_unpack _). vm_compute. exact I.
  - exists results. split; [exact Hs|]. rewrite Hlen. vm_compute. reflexivity.
Defined.


Lemma restart_witness :
  let w' := (handle (Add (doc "d" "x")) (run three_docs fresh)).1 in
  init_faiss (disk w') = w'.
Proof.
  apply (restart_after_commit (Add (doc "d" "x")) (run three_docs fresh)).
  - vm_compute. reflexivity.
  - reflexivity.
  - reflexivity.
Defined.

Lemma rows_aligned_witness :
  let w := run (three_docs ++ [Delete "a"]) fresh in
  NoDup (id_list (state w))
  ∧ dom (documents (state w)) = list_to_set (id_list (state w))
  ∧ Forall2 (λ i row, embeddings (state w) !! i = Some row)
            (id_list (state w)) (index w).
Proof.
  apply (rows_stay_aligned_without_readd (three_docs ++ [Delete "a"])).
  vm_compute. reflexivity.
Defined.


Lemma delete_of_readded_witness :
  let w := run readd fresh in
  (delete_document "a" w).2 = ServerError (KeyError "a")
  ∧ ntotal (delete_document "a" w).1 = 0
  ∧ "a" ∈ id_list (state (delete_document "a" w).1).
Proof.
  intros w.
  destruct (delete_of_readded_id_fails readd "a")
    as ((k & Hr & _ & _ & Hk) & Hn & _ & _ & _ & Hin & _).
  - eexists. vm_compute. reflexivity.
  - vm_compute. lia.
  - assert (k = "a") as Heq.
    { apply Hk. apply Forall_forall. apply (bool_decide_unpack _).
      vm_compute. exact I. }
    rewrite Heq in Hr. split; [exact Hr|]. split; [exact Hn|exact Hin].
Defined.


Lemma batch_equals_adds_witness :
  let docs := [doc "d" "x"; doc "e" "new text"] in
  (add_documents_batch docs (run three_docs fresh)).1
  = run (map Add docs) (run three_docs fresh).
Proof.
  intros docs.
  destruct (batch_equals_single_adds docs (run three_docs fresh)) as [Hw _].
  - discriminate.
  - repeat constructor.
    + exists "d", "x", [10%Z]. repeat split; try discriminate; reflexivity.
    + exists "e", "new text", [17%Z]. repeat split; try discriminate; reflexivity.
  - exact Hw.
Defined.


Lemma batch_stores_empty_id_witness :
  let d := {| req_id := Some ""; req_text := Some "x"; req_metadata := None |} in
  (add_document d fresh).2 = BadRequest "Missing id or text"
  ∧ documents (state (add_documents_batch [d] fresh).1) !! "" =
      Some {| doc_text := "x"; doc_metadata := JObj [] |}.
Proof.
  intros d.
  destruct (batch_stores_what_add_refuses fresh "" "x" None [10%Z])
    as (Hadd & _ & Hdoc & _).
  - left. reflexivity.
  - reflexivity.
  - split; [exact Hadd|exact Hdoc].
Defined.

Lemma null_metadata_witness :
  let data := {| req_id := Some "n"; req_text := Some "x"; req_metadata := Some JNull |} in
  get_documents (add_document data (run three_docs fresh)).1 = None.
Proof.
  intros data.
  destruct (non_object_metadata_breaks_listing data (run three_docs fresh)
              "n" "x" [10%Z] JNull) as (_ & _ & Hlist).
  - reflexivity.
  - discriminate.
  - reflexivity.
  - discriminate.
  - reflexivity.
  - reflexivity.
  - reflexivity.
  - exact Hlist.
Defined.

Lemma add_then_lookup_witness :
  let w' := (add_document (doc "d" "new text") (run three_docs fresh)).1 in
  embeddings (state w') !! "d" = Some [17%Z]
  ∧ last (id_list (state w')) = Some "d".
Proof.
  intros w'.
  destruct (add_then_lookup (doc "d" "new text") (run three_docs fresh)
              "d" "new text" [17%Z]) as (_ & Hv & Hlast & _).
  - reflexivity.
  - discriminate.
  - reflexivity.
  - discriminate.
  - reflexivity.
  - split; [exact Hv|exact Hlast].
Defined.

Lemma batch_half_applied_witness :
  let docs := [doc "d" "x";
               {| req_id := None; req_text := Some "new text"; req_metadata := None |};
               doc "e" "x"] in
  let w' := (add_documents_batch docs (run three_docs fresh)).1 in
  (add_documents_batch docs (run three_docs fresh)).2 = ServerError (MissingField "id")
  ∧ ntotal w' = 6
  ∧ id_list (state w') = ["a"; "b"; "c"; "d"].
Proof.
  intros docs w'.
  destruct (batch_with_missing_id_is_half_applied [doc "d" "x"] [doc "e" "x"]
              {| req_id := None; req_text := Some "new text"; req_metadata := None |}
              (run three_docs fresh) ["d"] ["x"; "new text"; "x"]
              [[10%Z]; [17%Z]; [10%Z]])
    as (Hr & Hn & Hids & _).
  - reflexivity.
  - reflexivity.
  - reflexivity.
  - vm_compute. reflexivity.
  - split; [exact Hr|]. split; [exact Hn|exact Hids].
Defined.

Lemma delete_forgets_witness :
  let w := run readd fresh in
  documents (state (delete_document "a" w).1) !! "a" = None
  ∧ embeddings (state (delete_document "a" w).1) !! "a" = None
  ∧ ntotal (delete_document "a" w).1 = 0.
Proof.
  intros w.
  destruct (delete_always_forgets readd "a") as (Hd & He & _ & _ & Hk).
  - eexists. vm_compute. reflexivity.
  - split; [exact Hd|]. split; [exact He|].
    apply (Hk "a"). vm_compute. reflexivity.
Defined.

End FurtherRuns.
